(** * Message fetching and the initial fetch of zulip-mobile

    A shallow embedding of [src/message/fetchActions.js]: the thunks
    [fetchMessages], [fetchOlder], [fetchNewer], [fetchMessagesInNarrow],
    [fetchPrivateMessages], the retry loop [tryFetch], the startup
    sequence [doInitialFetch] and [uploadFile], with theorems about the
    actions they dispatch, the API calls they make and the errors they
    raise.

    Modelling conventions.
    - A JS [number] that is a message id is a [Z]; the counts [numBefore]
      and [numAfter] are rationals, because the source computes
      [config.messagesPerRequest / 2] with JS division, which does not
      round.
    - The Redux store is a [GlobalState] held in a [World] together with
      the chronological trace of what the code did to the outside:
      dispatched actions, API requests, backoff waits.
    - Synchronous code is a state-passing function on the [World].  An
      [async] function is its synchronous prefix, which returns the rest of
      the function as a [Promise]: that rest runs when the awaited call
      settles, on the world as it is then.
    - Modules imported by the file that are not part of it (the API, the
      reducer, the narrow conversion, the configuration, the version
      comparison, the anchors) are parameters of the section.  The
      selectors return normally.  A request to the server can fail, and so
      can the store when it is handed the complete action inside the [try]
      of [fetchMessages], the one place where the source catches such a
      failure; the other dispatches are followed where they return.
    - A promise that nothing awaits ([fetchOlder], [fetchNewer] and
      [doInitialFetch] drop the promise of the thunk they dispatch) is
      returned to the runner, which lets it settle afterwards. *)

From Stdlib Require Import ZArith QArith List Ascii String Bool Lia.
Import ListNotations.
Local Open Scope Z_scope.

Set Implicit Arguments.

(** ** Data *)

(** [Narrow]: a list of operator/operand pairs, compared structurally. *)
Definition Narrow := list (string * string).

Definition UserId := Z.

Record Auth := { realm : string; email : string; apiKey : string }.

Record Message := { id : Z; sender_id : UserId; content : string }.

Definition UsersById := list (UserId * string).

(** The narrow in the form the server's API takes it. *)
Definition ApiNarrow := list (string * string).

(** Errors a promise can reject with.  [ApiError] carries the HTTP status
    of the response; the others have none. *)
Inductive JsError :=
| ApiError (httpStatus : Z) (code : string)
| NetworkError (message : string)
| OtherError (message : string).

(** Modelled from the spec: [isClientError] of [api/apiErrors], which is not
    in the source at hand.  The doc comment of [tryFetch] and the spec
    describe it: an API error whose response has an HTTP status 4xx. *)
Definition isClientError (e : JsError) : bool :=
  match e with
  | ApiError status _ => (400 <=? status) && (status <=? 499)
  | _ => false
  end.

(** The settlement of a promise: fulfilled with a value or rejected. *)
Inductive Res (A : Type) :=
| Ok (a : A)
| Throw (e : JsError).
Arguments Ok {A} a.
Arguments Throw {A} e.

Record CaughtUp := { cu_older : bool; cu_newer : bool }.
Record Fetching := { f_older : bool; f_newer : bool }.

(** The part of the Redux state that the selectors used here read. *)
Record GlobalState := {
  session_needsInitialFetch : bool;
  account_auth : Auth;
  own_user_id : UserId;
  all_users_by_id : UsersById;
  first_message_id : Narrow -> option Z;
  last_message_id : Narrow -> option Z;
  caught_up : Narrow -> CaughtUp;
  fetching_state : Narrow -> Fetching
}.

Definition getAuth (state : GlobalState) : Auth := account_auth state.
Definition getOwnUserId (state : GlobalState) : UserId := own_user_id state.
Definition getAllUsersById (state : GlobalState) : UsersById := all_users_by_id state.
Definition getFirstMessageId (state : GlobalState) (narrow : Narrow) : option Z :=
  first_message_id state narrow.
Definition getLastMessageId (state : GlobalState) (narrow : Narrow) : option Z :=
  last_message_id state narrow.
Definition getCaughtUpForNarrow (state : GlobalState) (narrow : Narrow) : CaughtUp :=
  caught_up state narrow.
Definition getFetchingForNarrow (state : GlobalState) (narrow : Narrow) : Fetching :=
  fetching_state state narrow.

(** The argument of [fetchMessages]. *)
Record FetchArgs := {
  fa_narrow : Narrow;
  fa_anchor : Z;
  fa_numBefore : Q;
  fa_numAfter : Q
}.

(** The request [api.getMessages] sends. *)
Record GetMessagesParams := {
  gm_narrow : ApiNarrow;
  gm_anchor : Z;
  gm_numBefore : Q;
  gm_numAfter : Q;
  gm_useFirstUnread : option bool
}.

(** Its response; the two flags are absent from the replies of old servers. *)
Record GetMessagesResponse := {
  messages : list Message;
  found_newest : option bool;
  found_oldest : option bool
}.

Record RegisterParams := {
  fetch_event_types : list string;
  apply_markdown : bool;
  include_subscribers : bool;
  client_gravatar : bool;
  notification_settings_null : bool;
  bulk_message_deletion : bool;
  user_avatar_url_field_optional : bool
}.

Record InitialData := {
  queue_id : string;
  last_event_id : Z;
  initial_payload : list (string * string)
}.

Record ApiResponseServerSettings := { zulip_version : string }.

(** [new ZulipVersion(raw)] keeps the raw string; the comparison is a
    parameter below. *)
Record ZulipVersion := { raw_version : string }.

(** Actions.  The first five are built in this file; the others stand for
    what the imported action creators [logout], [realmInit],
    [startEventPolling], [sendOutbox] and [initNotifications] hand to
    [dispatch]. *)
Inductive Action :=
| MESSAGE_FETCH_START (narrow : Narrow) (numBefore numAfter : Q)
| MESSAGE_FETCH_ERROR (narrow : Narrow) (error : JsError)
| MESSAGE_FETCH_COMPLETE (msgs : list Message) (narrow : Narrow) (anchor : Z)
    (numBefore numAfter : Q) (foundNewest foundOldest : option bool)
    (ownUserId : UserId)
| INITIAL_FETCH_START
| INITIAL_FETCH_COMPLETE
| LOGOUT
| REALM_INIT (data : InitialData) (version : ZulipVersion)
| START_EVENT_POLLING (queueId : string) (lastEventId : Z)
| SEND_OUTBOX
| INIT_NOTIFICATIONS.

(** What the code does to the outside, in the order it does it. *)
Inductive Event :=
| Dispatched (a : Action)
| GetMessagesCall (auth : Auth) (params : GetMessagesParams)
| RegisterForEventsCall (auth : Auth) (params : RegisterParams)
| GetServerSettingsCall (realm : string)
| BackoffWait.

Record World := { store : GlobalState; trace : list Event }.

(** ** Synchronous code and promises *)

Definition Sync (A : Type) := World -> A * World.

Definition ret {A} (a : A) : Sync A := fun w => (a, w).

Definition bind {A B} (c : Sync A) (k : A -> Sync B) : Sync B :=
  fun w => let (a, w') := c w in k a w'.

Declare Scope sync_scope.
Delimit Scope sync_scope with sync.
Notation "x <- c ;; k" := (bind c (fun x => k))
  (at level 61, c at next level, right associativity) : sync_scope.
Notation "c ;; k" := (bind c (fun _ => k))
  (at level 61, right associativity) : sync_scope.

(** The rest of an async function after its await. *)
Definition Promise (A : Type) := World -> Res A * World.

Definition getState : Sync GlobalState := fun w => (store w, w).

Definition emit (e : Event) : Sync unit :=
  fun w => (tt, {| store := store w; trace := trace w ++ [e] |}).

(** ** Action creators of the file *)

Definition messageFetchStart (narrow : Narrow) (numBefore numAfter : Q) : Action :=
  MESSAGE_FETCH_START narrow numBefore numAfter.

Definition messageFetchError (narrow : Narrow) (error : JsError) : Action :=
  MESSAGE_FETCH_ERROR narrow error.

Definition messageFetchComplete (msgs : list Message) (narrow : Narrow) (anchor : Z)
    (numBefore numAfter : Q) (foundNewest foundOldest : option bool)
    (ownUserId : UserId) : Action :=
  MESSAGE_FETCH_COMPLETE msgs narrow anchor numBefore numAfter
    foundNewest foundOldest ownUserId.

Definition initialFetchStart : Action := INITIAL_FETCH_START.
Definition initialFetchComplete : Action := INITIAL_FETCH_COMPLETE.

(** ** Reading a trace *)

(** The actions dispatched, in order. *)
Definition signals (evs : list Event) : list Action :=
  flat_map (fun e => match e with Dispatched a => [a] | _ => [] end) evs.

(** The requests made to the messages endpoint, in order. *)
Definition getMessages_calls (evs : list Event) : list (Auth * GetMessagesParams) :=
  flat_map (fun e => match e with GetMessagesCall a p => [(a, p)] | _ => [] end) evs.

(** All requests made to the server, in order. *)
Definition is_remote_call (e : Event) : bool :=
  match e with
  | GetMessagesCall _ _ | RegisterForEventsCall _ _ | GetServerSettingsCall _ => true
  | _ => false
  end.

Definition remote_calls (evs : list Event) : list Event := filter is_remote_call evs.

Definition is_backoff_wait (e : Event) : bool :=
  match e with BackoffWait => true | _ => false end.

Definition backoff_waits (evs : list Event) : nat :=
  List.length (filter is_backoff_wait evs).

(** What was added to the trace between two worlds. *)
Definition events_since (w w' : World) : list Event :=
  skipn (List.length (trace w)) (trace w').

(** The events of a retry loop around the two startup requests. *)
Definition is_retry_event (e : Event) : bool :=
  match e with
  | RegisterForEventsCall _ _ | GetServerSettingsCall _ | BackoffWait => true
  | _ => false
  end.

(** ** A concrete store and server

    Used to run the thunks on concrete inputs. *)

Module Sample.

Definition pair_eqb (a b : string * string) : bool :=
  String.eqb (fst a) (fst b) && String.eqb (snd a) (snd b).

Fixpoint narrow_eqb (a b : Narrow) : bool :=
  match a, b with
  | [], [] => true
  | x :: a', y :: b' => pair_eqb x y && narrow_eqb a' b'
  | _, _ => false
  end.

Definition positive_count (n : Q) : bool := negb (Qle_bool n 0).

Definition set_fetching (state : GlobalState) (narrow : Narrow) (f : Fetching)
    : GlobalState :=
  {| session_needsInitialFetch := session_needsInitialFetch state;
     account_auth := account_auth state;
     own_user_id := own_user_id state;
     all_users_by_id := all_users_by_id state;
     first_message_id := first_message_id state;
     last_message_id := last_message_id state;
     caught_up := caught_up state;
     fetching_state := fun n => if narrow_eqb n narrow then f
                                else fetching_state state n |}.

Definition set_needsInitialFetch (state : GlobalState) (b : bool) : GlobalState :=
  {| session_needsInitialFetch := b;
     account_auth := account_auth state;
     own_user_id := own_user_id state;
     all_users_by_id := all_users_by_id state;
     first_message_id := first_message_id state;
     last_message_id := last_message_id state;
     caught_up := caught_up state;
     fetching_state := fetching_state state |}.

(** Modelled from the spec: the reducers are not in the source at hand.
    The session store updates the in-flight flags of a narrow from the
    start, complete and error signals of a fetch, and leaves the initial
    phase when the initial fetch completes. *)
Definition reducer (state : GlobalState) (a : Action) : GlobalState :=
  match a with
  | MESSAGE_FETCH_START narrow numBefore numAfter =>
      let prev := fetching_state state narrow in
      set_fetching state narrow
        {| f_older := positive_count numBefore || f_older prev;
           f_newer := positive_count numAfter || f_newer prev |}
  | MESSAGE_FETCH_COMPLETE _ narrow _ numBefore numAfter _ _ _ =>
      let prev := fetching_state state narrow in
      set_fetching state narrow
        {| f_older := f_older prev && negb (positive_count numBefore);
           f_newer := f_newer prev && negb (positive_count numAfter) |}
  | MESSAGE_FETCH_ERROR narrow _ =>
      set_fetching state narrow {| f_older := false; f_newer := false |}
  | INITIAL_FETCH_START => set_needsInitialFetch state true
  | INITIAL_FETCH_COMPLETE => set_needsInitialFetch state false
  | _ => state
  end.

Definition meanwhile (state : GlobalState) : GlobalState := state.

(** A store that takes every action. *)
Definition never_throws (state : GlobalState) (a : Action) : option JsError :=
  None.

(** A store that throws on messages it cannot process. *)
Definition throws_on_messages (state : GlobalState) (a : Action)
    : option JsError :=
  match a with
  | MESSAGE_FETCH_COMPLETE _ _ _ _ _ _ _ _ =>
      Some (OtherError "unexpected message data")
  | _ => None
  end.

Definition auth : Auth :=
  {| realm := "https://chat.example.org"; email := "me@example.org";
     apiKey := "k3y" |}.

Definition stream_narrow : Narrow := [("stream", "general")]%string.
Definition ALL_PRIVATE_NARROW : Narrow := [("is", "private")]%string.

Definition FIRST_UNREAD_ANCHOR : Z := 0.
Definition LAST_MESSAGE_ANCHOR : Z := 9007199254740991.

Definition messagesPerRequest : Q := 50 # 1.
Definition serverDataOnStartup : list string :=
  ["alert_words"; "message"; "realm"]%string.

Definition apiNarrowOfNarrow (narrow : Narrow) (users : UsersById) : ApiNarrow :=
  narrow.

(** A state with messages 1000 to 2000 of the stream narrow loaded,
    nothing in flight, not caught up. *)
Definition state0 : GlobalState :=
  {| session_needsInitialFetch := false;
     account_auth := auth;
     own_user_id := 7;
     all_users_by_id := [(7, "me"); (8, "you")]%string;
     first_message_id := fun n => if narrow_eqb n stream_narrow then Some 1000 else None;
     last_message_id := fun n => if narrow_eqb n stream_narrow then Some 2000 else None;
     caught_up := fun _ => {| cu_older := false; cu_newer := false |};
     fetching_state := fun _ => {| f_older := false; f_newer := false |} |}.

(** The same with a newer-direction fetch of the stream narrow in flight. *)
Definition state_fetchingNewer : GlobalState :=
  set_fetching state0 stream_narrow {| f_older := false; f_newer := true |}.

(** The same with the stream narrow caught up in both directions. *)
Definition state_caughtUp : GlobalState :=
  {| session_needsInitialFetch := false;
     account_auth := auth;
     own_user_id := 7;
     all_users_by_id := [(7, "me"); (8, "you")]%string;
     first_message_id := first_message_id state0;
     last_message_id := last_message_id state0;
     caught_up := fun _ => {| cu_older := true; cu_newer := true |};
     fetching_state := fetching_state state0 |}.

Definition world0 : World := {| store := state0; trace := [] |}.
Definition world_fetchingNewer : World :=
  {| store := state_fetchingNewer; trace := [] |}.
Definition world_caughtUp : World := {| store := state_caughtUp; trace := [] |}.

Definition message1 : Message :=
  {| id := 999; sender_id := 8; content := "hello" |}.

Definition response1 : GetMessagesResponse :=
  {| messages := [message1]; found_newest := Some false; found_oldest := Some true |}.

(** A server that answers every messages request. *)
Definition getMessages_ok (a : Auth) (p : GetMessagesParams)
    : Res GetMessagesResponse := Ok response1.

(** A server that fails every messages request with a 500. *)
Definition getMessages_500 (a : Auth) (p : GetMessagesParams)
    : Res GetMessagesResponse := Throw (ApiError 500 "INTERNAL").

Definition initData1 : InitialData :=
  {| queue_id := "1517:0"; last_event_id := -1; initial_payload := [] |}.

(** Registration fails twice with a network error, then succeeds. *)
Definition register_third_time (n : nat) (a : Auth) (p : RegisterParams)
    : Res InitialData :=
  match n with
  | 0%nat | 1%nat => Throw (NetworkError "timeout")
  | _ => Ok initData1
  end.

Definition register_ok (n : nat) (a : Auth) (p : RegisterParams)
    : Res InitialData := Ok initData1.

Definition settings_old (n : nat) (r : string) : Res ApiResponseServerSettings :=
  Ok {| zulip_version := "2.0.4" |}.

Definition settings_new (n : nat) (r : string) : Res ApiResponseServerSettings :=
  Ok {| zulip_version := "3.1" |}.

(** The server settings request is refused: the API key is no longer
    valid. *)
Definition settings_401 (n : nat) (r : string) : Res ApiResponseServerSettings :=
  Throw (ApiError 401 "UNAUTHORIZED").

Definition MIN_RECENTPMS_SERVER_VERSION : ZulipVersion :=
  {| raw_version := "2.1-dev-384-g4c3c669b41" |}.

(** A comparison on the major and minor digits of the version strings,
    enough to tell the sample versions apart. *)
Definition major_minor (v : ZulipVersion) : nat * nat :=
  match raw_version v with
  | String a (String _ (String b _)) => (Ascii.nat_of_ascii a, Ascii.nat_of_ascii b)
  | _ => (0%nat, 0%nat)
  end.

Definition isAtLeast (v w : ZulipVersion) : bool :=
  let (a, b) := major_minor v in
  let (c, d) := major_minor w in
  ((c <? a) || ((a =? c) && (d <=? b)))%nat.

End Sample.

(** ** The thunks *)

Section FetchActions.

(** *** Imports of the file that are not part of it *)

(** The root reducer: what [dispatch] of a plain action does to the store. *)
Variable reducer : GlobalState -> Action -> GlobalState.

(** Whether the store, in a given state, throws when it is handed an
    action, and what it throws. *)
Variable reducer_throws : GlobalState -> Action -> option JsError.

(** What other flows do to the store while this one is suspended at an
    await. *)
Variable meanwhile : GlobalState -> GlobalState.

(** How a request to the messages endpoint settles. *)
Variable api_getMessages : Auth -> GetMessagesParams -> Res GetMessagesResponse.

(** How the [n]-th request of a retry loop to the register endpoint and to
    the server-settings endpoint settles. *)
Variable api_registerForEvents : nat -> Auth -> RegisterParams -> Res InitialData.
Variable api_getServerSettings : nat -> string -> Res ApiResponseServerSettings.

Variable apiNarrowOfNarrow : Narrow -> UsersById -> ApiNarrow.

(** [config.messagesPerRequest] and [config.serverDataOnStartup]. *)
Variable messagesPerRequest : Q.
Variable serverDataOnStartup : list string.

Variable FIRST_UNREAD_ANCHOR : Z.
Variable LAST_MESSAGE_ANCHOR : Z.
Variable ALL_PRIVATE_NARROW : Narrow.

(** [v.isAtLeast(w)] and the first version with the recent-PMs endpoint. *)
Variable isAtLeast : ZulipVersion -> ZulipVersion -> bool.
Variable MIN_RECENTPMS_SERVER_VERSION : ZulipVersion.

Local Open Scope sync_scope.

(** [dispatch] of a plain action: the reducer runs, the action is seen. *)
Definition dispatch (a : Action) : Sync unit :=
  fun w => (tt, {| store := reducer (store w) a;
                   trace := trace w ++ [Dispatched a] |}).

(** [dispatch] inside a [try]: when the store throws, the action has been
    handed over, the store keeps its state and the error is raised. *)
Definition dispatch_or_throw (a : Action) : Promise unit :=
  fun w =>
    match reducer_throws (store w) a with
    | Some e => (Throw e, {| store := store w;
                             trace := trace w ++ [Dispatched a] |})
    | None => (Ok tt, snd (dispatch a w))
    end.

(** The world when the event loop comes back to a suspended function. *)
Definition wake (w : World) : World :=
  {| store := meanwhile (store w); trace := trace w |}.

(** The event loop resumes a suspended async function. *)
Definition resume {A} (p : Promise A) : Promise A :=
  fun w => p (wake w).

(** An async function run to its settlement. *)
Definition run_async {A} (f : Sync (Promise A)) : Promise A :=
  fun w => let (p, w') := f w in resume p w'.

(** [fetchMessages], lines 91-123.  The [try] encloses the request and the
    dispatch of the complete action: a failure of either is caught. *)
Definition fetchMessages (fetchArgs : FetchArgs) : Sync (Promise (list Message)) :=
  dispatch (messageFetchStart (fa_narrow fetchArgs) (fa_numBefore fetchArgs)
              (fa_numAfter fetchArgs)) ;;
  auth <- (s <- getState ;; ret (getAuth s)) ;;
  users <- (s <- getState ;; ret (getAllUsersById s)) ;;
  let params :=
    {| gm_narrow := apiNarrowOfNarrow (fa_narrow fetchArgs) users;
       gm_anchor := fa_anchor fetchArgs;
       gm_numBefore := fa_numBefore fetchArgs;
       gm_numAfter := fa_numAfter fetchArgs;
       gm_useFirstUnread := Some (fa_anchor fetchArgs =? FIRST_UNREAD_ANCHOR) |} in
  emit (GetMessagesCall auth params) ;;
  ret (fun w =>
    let catch (e : JsError) : Promise (list Message) :=
      dispatch (messageFetchError (fa_narrow fetchArgs) e) ;;
      ret (Throw e) in
    match api_getMessages auth params with
    | Ok response =>
        match dispatch_or_throw
                (messageFetchComplete (messages response) (fa_narrow fetchArgs)
                   (fa_anchor fetchArgs) (fa_numBefore fetchArgs)
                   (fa_numAfter fetchArgs) (found_newest response)
                   (found_oldest response) (getOwnUserId (store w))) w with
        | (Ok _, w') => (Ok (messages response), w')
        | (Throw e, w') => catch e w'
        end
    | Throw e => catch e w
    end).

(** [fetchOlder], lines 125-142.  The promise of the dispatched
    [fetchMessages] is not awaited: it is returned here as the promise
    the thunk leaves behind. *)
Definition fetchOlder (narrow : Narrow) : Sync (option (Promise (list Message))) :=
  state <- getState ;;
  let firstMessageId := getFirstMessageId state narrow in
  let caughtUp := getCaughtUpForNarrow state narrow in
  let fetching := getFetchingForNarrow state narrow in
  let needsInitialFetch := session_needsInitialFetch state in
  match negb needsInitialFetch && negb (f_older fetching)
        && negb (cu_older caughtUp), firstMessageId with
  | true, Some firstId =>
      p <- fetchMessages {| fa_narrow := narrow;
                            fa_anchor := firstId;
                            fa_numBefore := messagesPerRequest;
                            fa_numAfter := 0%Q |} ;;
      ret (Some p)
  | _, _ => ret None
  end.

(** [fetchNewer], lines 144-161. *)
Definition fetchNewer (narrow : Narrow) : Sync (option (Promise (list Message))) :=
  state <- getState ;;
  let lastMessageId := getLastMessageId state narrow in
  let caughtUp := getCaughtUpForNarrow state narrow in
  let fetching := getFetchingForNarrow state narrow in
  let needsInitialFetch := session_needsInitialFetch state in
  match negb needsInitialFetch && negb (f_newer fetching)
        && negb (cu_newer caughtUp), lastMessageId with
  | true, Some lastId =>
      p <- fetchMessages {| fa_narrow := narrow;
                            fa_anchor := lastId;
                            fa_numBefore := 0%Q;
                            fa_numAfter := messagesPerRequest |} ;;
      ret (Some p)
  | _, _ => ret None
  end.

(** A thunk that leaves a promise behind, run until that promise has
    settled; the settlement itself is dropped, as nothing holds the
    promise. *)
Definition run_detached {A} (f : Sync (option (Promise A))) : World -> World :=
  fun w =>
    match f w with
    | (Some p, w') => snd (resume p w')
    | (None, w') => w'
    end.

(** [isFetchNeededAtAnchor], lines 172-182. *)
Definition isFetchNeededAtAnchor (state : GlobalState) (narrow : Narrow)
    (anchor : Z) : bool :=
  let caughtUp := getCaughtUpForNarrow state narrow in
  negb (cu_newer caughtUp && cu_older caughtUp).

(** [fetchMessagesInNarrow], lines 204-219.  The anchor is optional and
    defaults to [FIRST_UNREAD_ANCHOR]; the promise resolves to [None]
    ([undefined]) when no fetch is made. *)
Definition fetchMessagesInNarrow (narrow : Narrow) (anchor_arg : option Z)
    : Sync (Promise (option (list Message))) :=
  let anchor := match anchor_arg with Some a => a | None => FIRST_UNREAD_ANCHOR end in
  state <- getState ;;
  if negb (isFetchNeededAtAnchor state narrow anchor)
  then ret (fun w => (Ok None, w))
  else
    p <- fetchMessages {| fa_narrow := narrow;
                          fa_anchor := anchor;
                          fa_numBefore := messagesPerRequest / (2 # 1);
                          fa_numAfter := messagesPerRequest / (2 # 1) |} ;;
    ret (fun w =>
      match p w with
      | (Ok msgs, w') => (Ok (Some msgs), w')
      | (Throw e, w') => (Throw e, w')
      end).

(** [fetchPrivateMessages], lines 232-252. *)
Definition fetchPrivateMessages : Sync (Promise unit) :=
  auth <- (s <- getState ;; ret (getAuth s)) ;;
  users <- (s <- getState ;; ret (getAllUsersById s)) ;;
  let params :=
    {| gm_narrow := apiNarrowOfNarrow ALL_PRIVATE_NARROW users;
       gm_anchor := LAST_MESSAGE_ANCHOR;
       gm_numBefore := 100 # 1;
       gm_numAfter := 0;
       gm_useFirstUnread := None |} in
  emit (GetMessagesCall auth params) ;;
  ret (fun w =>
    match api_getMessages auth params with
    | Ok response =>
        (s <- getState ;;
         dispatch (messageFetchComplete (messages response) ALL_PRIVATE_NARROW
                     LAST_MESSAGE_ANCHOR (100 # 1) 0 (found_newest response)
                     (found_oldest response) (getOwnUserId s)) ;;
         ret (Ok tt)) w
    | Throw e => (Throw e, w)
    end).

(** *** The retry loop *)

(** Modelled from the spec: [BackoffMachine] of [utils/async], which is not
    in the source at hand: an internal counter of the waits made, new for
    each call of [tryFetch].  The durations are not modelled. *)
Record BackoffMachine := { waits : nat }.

Definition new_BackoffMachine : BackoffMachine := {| waits := 0 |}.

(** [backoffMachine.wait()]: the wait is seen in the trace and counted. *)
Definition wait (m : BackoffMachine) : Sync BackoffMachine :=
  emit BackoffWait ;; ret {| waits := S (waits m) |}.

(** The wrapped operation [func]: its [n]-th call (from 0) runs a
    synchronous prefix and returns a promise. *)
Definition AsyncFunction (T : Type) := nat -> Sync (Promise T).

(** Where the loop of [tryFetch] stands: suspended at [await func()],
    suspended at [await backoffMachine.wait()], or left by [return] or
    [throw]. *)
Inductive Stage (T : Type) :=
| AwaitingFunc (p : Promise T)
| AwaitingBackoff
| Settled (r : Res T).
Arguments AwaitingBackoff {T}.

Record Loop (T : Type) := {
  backoffMachine : BackoffMachine;
  calls : nat;
  stage : Stage T
}.

(** [tryFetch], lines 261-283, up to its first await. *)
Definition tryFetch_start {T} (func : AsyncFunction T) : Sync (Loop T) :=
  let backoffMachine := new_BackoffMachine in
  p <- func 0%nat ;;
  ret {| backoffMachine := backoffMachine; calls := 1; stage := AwaitingFunc p |}.

(** From one await of the loop to the next. *)
Definition tryFetch_step {T} (func : AsyncFunction T) (l : Loop T) : Sync (Loop T) :=
  match stage l with
  | AwaitingFunc p =>
      fun w =>
        match resume p w with
        | (Ok v, w') =>
            ({| backoffMachine := backoffMachine l; calls := calls l;
                stage := Settled (Ok v) |}, w')
        | (Throw e, w') =>
            if isClientError e
            then ({| backoffMachine := backoffMachine l; calls := calls l;
                     stage := Settled (Throw e) |}, w')
            else (m <- wait (backoffMachine l) ;;
                  ret {| backoffMachine := m; calls := calls l;
                         stage := AwaitingBackoff |}) w'
        end
  | AwaitingBackoff =>
      fun w =>
        (p <- func (calls l) ;;
         ret {| backoffMachine := backoffMachine l; calls := S (calls l);
                stage := AwaitingFunc p |}) (wake w)
  | Settled r => ret l
  end.

Fixpoint tryFetch_run {T} (fuel : nat) (func : AsyncFunction T) (l : Loop T)
    : Sync (Loop T) :=
  match fuel with
  | O => ret l
  | S fuel' => l' <- tryFetch_step func l ;; tryFetch_run fuel' func l'
  end.

(** [tryFetch] followed for [fuel] awaits. *)
Definition tryFetch {T} (fuel : nat) (func : AsyncFunction T) : Sync (Loop T) :=
  l <- tryFetch_start func ;; tryFetch_run fuel func l.

(** *** The initial fetch *)

(** Which of the two promises given to [Promise.all] the event loop
    serves next. *)
Inductive Turn := First | Second.

(** [Promise.all] of two promises: rejected as soon as one of them is,
    fulfilled once both are, pending otherwise. *)
Definition settle_all {A B} (l1 : Loop A) (l2 : Loop B) : option (Res (A * B)) :=
  match stage l1, stage l2 with
  | Settled (Throw e), _ => Some (Throw e)
  | _, Settled (Throw e) => Some (Throw e)
  | Settled (Ok a), Settled (Ok b) => Some (Ok (a, b))
  | _, _ => None
  end.

(** What the await of [Promise.all] leaves: its settlement, if it has
    settled, the two loops as they stand, and the rest of the schedule. *)
Record AllOutcome (A B : Type) := {
  settlement : option (Res (A * B));
  first_loop : Loop A;
  second_loop : Loop B;
  schedule_left : list Turn
}.

(** The two retry loops run interleaved, in the order the schedule gives,
    until [Promise.all] settles or the schedule ends. *)
Fixpoint promise_all {A B} (schedule : list Turn)
    (f1 : AsyncFunction A) (f2 : AsyncFunction B) (l1 : Loop A) (l2 : Loop B)
    : Sync (AllOutcome A B) :=
  match settle_all l1 l2 with
  | Some r => ret {| settlement := Some r; first_loop := l1; second_loop := l2;
                     schedule_left := schedule |}
  | None =>
      match schedule with
      | [] => ret {| settlement := None; first_loop := l1; second_loop := l2;
                     schedule_left := [] |}
      | First :: rest =>
          l1' <- tryFetch_step f1 l1 ;; promise_all rest f1 f2 l1' l2
      | Second :: rest =>
          l2' <- tryFetch_step f2 l2 ;; promise_all rest f1 f2 l1 l2'
      end
  end.

(** After [Promise.all] has rejected, the loop that has not settled goes
    on by itself; nothing awaits it. *)
Fixpoint background {A B} (schedule : list Turn)
    (f1 : AsyncFunction A) (f2 : AsyncFunction B) (l1 : Loop A) (l2 : Loop B)
    : Sync unit :=
  match schedule with
  | [] => ret tt
  | First :: rest =>
      l1' <- tryFetch_step f1 l1 ;; background rest f1 f2 l1' l2
  | Second :: rest =>
      l2' <- tryFetch_step f2 l2 ;; background rest f1 f2 l1 l2'
  end.

(** The argument of [api.registerForEvents], lines 323-336. *)
Definition registerParams : RegisterParams :=
  {| fetch_event_types := serverDataOnStartup;
     apply_markdown := true;
     include_subscribers := false;
     client_gravatar := true;
     notification_settings_null := true;
     bulk_message_deletion := true;
     user_avatar_url_field_optional := true |}.

(** The two functions handed to [tryFetch], lines 315-338. *)
Definition registerForEvents_func (auth : Auth) : AsyncFunction InitialData :=
  fun n =>
    emit (RegisterForEventsCall auth registerParams) ;;
    ret (fun w => (api_registerForEvents n auth registerParams, w)).

Definition getServerSettings_func (auth : Auth)
    : AsyncFunction ApiResponseServerSettings :=
  fun n =>
    emit (GetServerSettingsCall (realm auth)) ;;
    ret (fun w => (api_getServerSettings n (realm auth), w)).

(** How far [doInitialFetch] got: still at [await Promise.all(...)] when
    the schedule ended, or returned, leaving behind the promise of
    [fetchPrivateMessages] if it dispatched it. *)
Inductive InitialFetch :=
| Suspended
| Returned (floating : option (Promise unit)).

(** The awaited expression of lines 314-339: both retry loops are started,
    the one around [api.registerForEvents] first, and [Promise.all] is
    awaited. *)
Definition initial_requests (auth : Auth) (schedule : list Turn)
    : Sync (AllOutcome InitialData ApiResponseServerSettings) :=
  l1 <- tryFetch_start (registerForEvents_func auth) ;;
  l2 <- tryFetch_start (getServerSettings_func auth) ;;
  promise_all schedule (registerForEvents_func auth)
    (getServerSettings_func auth) l1 l2.

(** [doInitialFetch], lines 306-358. *)
Definition doInitialFetch (schedule : list Turn) : Sync InitialFetch :=
  dispatch initialFetchStart ;;
  auth <- (s <- getState ;; ret (getAuth s)) ;;
  all <- initial_requests auth schedule ;;
  match settlement all with
  | None => ret Suspended
  | Some (Throw e) =>
      dispatch LOGOUT ;;
      background (schedule_left all) (registerForEvents_func auth)
        (getServerSettings_func auth) (first_loop all) (second_loop all) ;;
      ret (Returned None)
  | Some (Ok (initData, serverSettings)) =>
      let serverVersion := {| raw_version := zulip_version serverSettings |} in
      dispatch (REALM_INIT initData serverVersion) ;;
      dispatch initialFetchComplete ;;
      dispatch (START_EVENT_POLLING (queue_id initData) (last_event_id initData)) ;;
      floating <-
        (if negb (isAtLeast serverVersion MIN_RECENTPMS_SERVER_VERSION)
         then p <- fetchPrivateMessages ;; ret (Some p)
         else ret None) ;;
      dispatch SEND_OUTBOX ;;
      dispatch INIT_NOTIFICATIONS ;;
      ret (Returned floating)
  end.

(** The promise a thunk left behind settles, if there is one. *)
Definition settle_floating {A} (floating : option (Promise A)) : Sync (option (Res A)) :=
  match floating with
  | Some p => fun w => let (r, w') := resume p w in (Some r, w')
  | None => ret None
  end.

(** [doInitialFetch] and then the promise it left behind. *)
Definition run_doInitialFetch (schedule : list Turn)
    : Sync (option (option (Res unit))) :=
  r <- doInitialFetch schedule ;;
  match r with
  | Suspended => ret None
  | Returned floating => s <- settle_floating floating ;; ret (Some s)
  end.

(** [fetchNewer] triggered [n] times in a row on the same narrow, before
    any of the promises left behind has settled. *)
Fixpoint fetchNewer_repeated (n : nat) (narrow : Narrow) : Sync unit :=
  match n with
  | O => ret tt
  | S n' => fetchNewer narrow ;; fetchNewer_repeated n' narrow
  end.

(** *** Vocabulary of the statements *)

(** The guard of [fetchOlder] as a proposition. *)
Definition older_guard (state : GlobalState) (narrow : Narrow) : Prop :=
  session_needsInitialFetch state = false
  /\ f_older (getFetchingForNarrow state narrow) = false
  /\ cu_older (getCaughtUpForNarrow state narrow) = false
  /\ getFirstMessageId state narrow <> None.

Definition newer_guard (state : GlobalState) (narrow : Narrow) : Prop :=
  session_needsInitialFetch state = false
  /\ f_newer (getFetchingForNarrow state narrow) = false
  /\ cu_newer (getCaughtUpForNarrow state narrow) = false
  /\ getLastMessageId state narrow <> None.

(** The anchor [fetchMessagesInNarrow] uses for its optional argument. *)
Definition anchor_or_default (anchor_arg : option Z) : Z :=
  match anchor_arg with Some a => a | None => FIRST_UNREAD_ANCHOR end.

(** The window of a centering fetch. *)
Definition centering_args (narrow : Narrow) (anchor : Z) : FetchArgs :=
  {| fa_narrow := narrow;
     fa_anchor := anchor;
     fa_numBefore := messagesPerRequest / (2 # 1);
     fa_numAfter := messagesPerRequest / (2 # 1) |}.

(** A promise that settles with [r] whatever the world it is resumed in. *)
Definition promise_settles {T} (p : Promise T) (r : Res T) : Prop :=
  forall w : World, fst (p w) = r.

(** The [n]-th call of [func] settles with [r]. *)
Definition settles_with {T} (func : AsyncFunction T) (n : nat) (r : Res T) : Prop :=
  forall w : World, promise_settles (fst (func n w)) r.

(** The [n]-th call of [func] fails with an error that is not a client
    error. *)
Definition fails_transiently {T} (func : AsyncFunction T) (n : nat) : Prop :=
  exists e : JsError, isClientError e = false /\ settles_with func n (Throw e).

(** A function whose calls only add one retry event to the trace, and
    whose promises add nothing. *)
Definition quiet_func {T} (f : AsyncFunction T) : Prop :=
  forall (n : nat) (w : World),
    (exists e : Event,
        is_retry_event e = true /\ trace (snd (f n w)) = trace w ++ [e])
    /\ forall w' : World, trace (snd (fst (f n w) w')) = trace w'.

(** A loop whose pending promise, if any, adds nothing to the trace. *)
Definition quiet_loop {T} (l : Loop T) : Prop :=
  forall p : Promise T,
    stage l = AwaitingFunc p -> forall w : World, trace (snd (p w)) = trace w.

(** The loop is suspended at the call number [n] of [func], having
    waited [n] times. *)
Definition at_call {T} (func : AsyncFunction T) (n : nat) (l : Loop T) : Prop :=
  waits (backoffMachine l) = n /\ calls l = S n
  /\ exists w0 : World, stage l = AwaitingFunc (fst (func n w0)).

(** The loop has not ended by rethrowing an error that is not a client
    error. *)
Definition ends_only_on_client_error {T} (l : Loop T) : Prop :=
  forall e : JsError, stage l = Settled (Throw e) -> isClientError e = true.

(** The loop is suspended, and if it is at a call of [func], that call
    is at least the [n]-th. *)
Definition suspended_from {T} (func : AsyncFunction T) (n : nat) (l : Loop T)
    : Prop :=
  (n <= calls l)%nat
  /\ (stage l = AwaitingBackoff
      \/ exists (i : nat) (w0 : World),
           (n <= i)%nat /\ stage l = AwaitingFunc (fst (func i w0))).

(** *** Uploading a file *)

(** The response of [api.uploadFile]: the address the server gave the
    file. *)
Record UploadResponse := { response_uri : string }.

(** How a request to the upload endpoint settles. *)
Variable api_uploadFile : Auth -> string -> string -> Res UploadResponse.

(** What [uploadFile] does to the outside: the upload request, and the
    dispatch of what the imported action creator [addToOutbox] returns. *)
Inductive UploadEvent :=
| UploadFileCall (auth : Auth) (uri name : string)
| AddToOutbox (narrow : Narrow) (content : string).

(** The template string of line 366. *)
Definition messageToSend (name uri : string) : string :=
  ("[" ++ name ++ "](" ++ uri ++ ")")%string.

(** [uploadFile], lines 360-369.  The store is read once, before the
    await, and the thunk dispatches once, after it: the run is given as
    its settlement and the events in order. *)
Definition uploadFile (narrow : Narrow) (uri name : string) (state : GlobalState)
    : Res unit * list UploadEvent :=
  let auth := getAuth state in
  match api_uploadFile auth uri name with
  | Ok response =>
      (Ok tt,
       [UploadFileCall auth uri name;
        AddToOutbox narrow (messageToSend name (response_uri response))])
  | Throw e => (Throw e, [UploadFileCall auth uri name])
  end.

(** Whether a character occurs in a string. *)
Fixpoint occurs (c : Ascii.ascii) (s : string) : bool :=
  match s with
  | EmptyString => false
  | String c' s' => Ascii.eqb c c' || occurs c s'
  end.

(** *** Vocabulary of the further facts *)

(** A function whose calls add the one event [c] to the trace, and whose
    promises add nothing. *)
Definition calls_only {T} (c : Event) (f : AsyncFunction T) : Prop :=
  forall (n : nat) (w : World),
    trace (snd (f n w)) = trace w ++ [c]
    /\ forall w' : World, trace (snd (fst (f n w) w')) = trace w'.

(** The trace of a retry loop that has made [n] calls: the call, then a
    wait and the call again for each further call. *)
Fixpoint retry_trace (call : Event) (n : nat) : list Event :=
  match n with
  | O => []
  | S n' =>
      match n' with
      | O => [call]
      | S _ => retry_trace call n' ++ [BackoffWait; call]
      end
  end.

(** The wait a loop suspended at [backoffMachine.wait()] has started. *)
Definition pending_wait {T} (l : Loop T) : list Event :=
  match stage l with
  | AwaitingBackoff => [BackoffWait]
  | _ => []
  end.

(** A startup request, if [e] is one, is the one made for [auth]. *)
Definition startup_request_for (auth : Auth) (e : Event) : Prop :=
  match e with
  | RegisterForEventsCall a p => a = auth /\ p = registerParams
  | GetServerSettingsCall r => r = realm auth
  | _ => True
  end.

(** A function whose promises do not depend on the world they are made or
    resumed in. *)
Definition oblivious_func {T} (f : AsyncFunction T) : Prop :=
  forall (n : nat) (w w' : World),
    fst (f n w) = fst (f n w')
    /\ forall w1 w2 : World, fst (fst (f n w) w1) = fst (fst (f n w) w2).

Definition oblivious_loop {T} (l : Loop T) : Prop :=
  forall p : Promise T,
    stage l = AwaitingFunc p -> forall w1 w2 : World, fst (p w1) = fst (p w2).

(** Followed for [m] awaits or more, in any world, the loop has ended with
    [r]. *)
Definition ends_within {T} (f : AsyncFunction T) (m : nat) (l : Loop T)
    (r : Res T) : Prop :=
  forall (fuel : nat) (w : World),
    (m <= fuel)%nat -> stage (fst (tryFetch_run fuel f l w)) = Settled r.

Definition is_first (t : Turn) : bool :=
  match t with First => true | Second => false end.

(** How many turns of a schedule go to the first and to the second loop. *)
Definition first_turns (schedule : list Turn) : nat :=
  List.length (filter is_first schedule).

Definition second_turns (schedule : list Turn) : nat :=
  List.length (filter (fun t => negb (is_first t)) schedule).

(** The registration for [auth] fails [k] times with errors that are not
    client errors, then succeeds with [data]. *)
Definition register_succeeds_at (auth : Auth) (k : nat) (data : InitialData)
    : Prop :=
  (forall i : nat, (i < k)%nat ->
     exists e : JsError,
       api_registerForEvents i auth registerParams = Throw e
       /\ isClientError e = false)
  /\ api_registerForEvents k auth registerParams = Ok data.

(** The same for the server settings request. *)
Definition settings_succeed_at (auth : Auth) (k : nat)
    (settings : ApiResponseServerSettings) : Prop :=
  (forall i : nat, (i < k)%nat ->
     exists e : JsError,
       api_getServerSettings i (realm auth) = Throw e
       /\ isClientError e = false)
  /\ api_getServerSettings k (realm auth) = Ok settings.

(** The server settings request fails [k] times with errors that are not
    client errors, then with the client error [e]. *)
Definition settings_refused_at (auth : Auth) (k : nat) (e : JsError) : Prop :=
  (forall i : nat, (i < k)%nat ->
     exists e' : JsError,
       api_getServerSettings i (realm auth) = Throw e'
       /\ isClientError e' = false)
  /\ api_getServerSettings k (realm auth) = Throw e
  /\ isClientError e = true.

(** The same for the registration. *)
Definition register_refused_at (auth : Auth) (k : nat) (e : JsError) : Prop :=
  (forall i : nat, (i < k)%nat ->
     exists e' : JsError,
       api_registerForEvents i auth registerParams = Throw e'
       /\ isClientError e' = false)
  /\ api_registerForEvents k auth registerParams = Throw e
  /\ isClientError e = true.

(** Between [w] and [w'] only events that satisfy [P] were added to the
    trace. *)
Definition adds_only (P : Event -> Prop) (w w' : World) : Prop :=
  exists evs : list Event, trace w' = trace w ++ evs /\ Forall P evs.

(** ** Facts *)

(** *** Traces *)

Lemma events_since_app (w w' : World) (evs : list Event) :
  trace w' = trace w ++ evs -> events_since w w' = evs.
Proof.
  intros H. unfold events_since. rewrite H.
  rewrite skipn_app, skipn_all, Nat.sub_diag. reflexivity.
Qed.

Lemma fetchMessages_prefix (fetchArgs : FetchArgs) (w : World) :
  let s1 := reducer (store w)
              (messageFetchStart (fa_narrow fetchArgs) (fa_numBefore fetchArgs)
                 (fa_numAfter fetchArgs)) in
  let params :=
    {| gm_narrow := apiNarrowOfNarrow (fa_narrow fetchArgs) (getAllUsersById s1);
       gm_anchor := fa_anchor fetchArgs;
       gm_numBefore := fa_numBefore fetchArgs;
       gm_numAfter := fa_numAfter fetchArgs;
       gm_useFirstUnread := Some (fa_anchor fetchArgs =? FIRST_UNREAD_ANCHOR) |} in
  snd (fetchMessages fetchArgs w)
  = {| store := s1;
       trace := trace w ++
         [Dispatched (messageFetchStart (fa_narrow fetchArgs)
                        (fa_numBefore fetchArgs) (fa_numAfter fetchArgs));
          GetMessagesCall (getAuth s1) params] |}.
Proof.
  cbn. rewrite <- app_assoc. reflexivity.
Qed.

Lemma fetchMessages_settles (fetchArgs : FetchArgs) (w : World) :
  let s1 := reducer (store w)
              (messageFetchStart (fa_narrow fetchArgs) (fa_numBefore fetchArgs)
                 (fa_numAfter fetchArgs)) in
  let params :=
    {| gm_narrow := apiNarrowOfNarrow (fa_narrow fetchArgs) (getAllUsersById s1);
       gm_anchor := fa_anchor fetchArgs;
       gm_numBefore := fa_numBefore fetchArgs;
       gm_numAfter := fa_numAfter fetchArgs;
       gm_useFirstUnread := Some (fa_anchor fetchArgs =? FIRST_UNREAD_ANCHOR) |} in
  let start := messageFetchStart (fa_narrow fetchArgs) (fa_numBefore fetchArgs)
                 (fa_numAfter fetchArgs) in
  run_async (fetchMessages fetchArgs) w
  = match api_getMessages (getAuth s1) params with
    | Ok response =>
        let done :=
          messageFetchComplete (messages response) (fa_narrow fetchArgs)
            (fa_anchor fetchArgs) (fa_numBefore fetchArgs) (fa_numAfter fetchArgs)
            (found_newest response) (found_oldest response)
            (getOwnUserId (meanwhile s1)) in
        match reducer_throws (meanwhile s1) done with
        | None =>
            (Ok (messages response),
             {| store := reducer (meanwhile s1) done;
                trace := trace w ++
                  [Dispatched start; GetMessagesCall (getAuth s1) params;
                   Dispatched done] |})
        | Some e =>
            let failed := messageFetchError (fa_narrow fetchArgs) e in
            (Throw e,
             {| store := reducer (meanwhile s1) failed;
                trace := trace w ++
                  [Dispatched start; GetMessagesCall (getAuth s1) params;
                   Dispatched done; Dispatched failed] |})
        end
    | Throw e =>
        let failed := messageFetchError (fa_narrow fetchArgs) e in
        (Throw e,
         {| store := reducer (meanwhile s1) failed;
            trace := trace w ++
              [Dispatched start; GetMessagesCall (getAuth s1) params;
               Dispatched failed] |})
    end.
Proof.
  cbn. unfold resume, wake, dispatch_or_throw. cbn.
  destruct (api_getMessages _ _); cbn;
    [destruct (reducer_throws _ _); cbn|];
    rewrite <- !app_assoc; reflexivity.
Qed.

Lemma getMessages_calls_dispatched (l : list Action) :
  getMessages_calls (map Dispatched l) = [].
Proof. induction l as [|a l IH]; [reflexivity|exact IH]. Qed.

Lemma remote_calls_dispatched (l : list Action) :
  remote_calls (map Dispatched l) = [].
Proof. induction l as [|a l IH]; [reflexivity|exact IH]. Qed.

Lemma signals_dispatched (l : list Action) : signals (map Dispatched l) = l.
Proof. induction l as [|a l IH]; [reflexivity|]. cbn. f_equal. exact IH. Qed.

(** What [fetchMessages] adds to the trace: the start action, the one
    request, and then only actions, one or two. *)
Lemma fetchMessages_events (fetchArgs : FetchArgs) (w : World) :
  let s1 := reducer (store w)
              (messageFetchStart (fa_narrow fetchArgs) (fa_numBefore fetchArgs)
                 (fa_numAfter fetchArgs)) in
  let params :=
    {| gm_narrow := apiNarrowOfNarrow (fa_narrow fetchArgs) (getAllUsersById s1);
       gm_anchor := fa_anchor fetchArgs;
       gm_numBefore := fa_numBefore fetchArgs;
       gm_numAfter := fa_numAfter fetchArgs;
       gm_useFirstUnread := Some (fa_anchor fetchArgs =? FIRST_UNREAD_ANCHOR) |} in
  exists (last : Action) (before : list Action),
    (List.length before <= 1)%nat
    /\ events_since w (snd (run_async (fetchMessages fetchArgs) w))
       = [Dispatched (messageFetchStart (fa_narrow fetchArgs)
                        (fa_numBefore fetchArgs) (fa_numAfter fetchArgs));
          GetMessagesCall (getAuth s1) params]
         ++ map Dispatched (before ++ [last]).
Proof.
  intros s1 params. rewrite fetchMessages_settles. fold s1. fold params.
  destruct (api_getMessages (getAuth s1) params) as [response|e];
    [cbn zeta; destruct (reducer_throws _ _)|].
  - eexists. eexists [_]. split; [cbn; lia|].
    apply events_since_app. reflexivity.
  - eexists. exists []. split; [cbn; lia|].
    apply events_since_app. reflexivity.
  - eexists. exists []. split; [cbn; lia|].
    apply events_since_app. reflexivity.
Qed.

(** The one request of [fetchMessages]. *)
Lemma fetchMessages_calls (fetchArgs : FetchArgs) (w : World) :
  let s1 := reducer (store w)
              (messageFetchStart (fa_narrow fetchArgs) (fa_numBefore fetchArgs)
                 (fa_numAfter fetchArgs)) in
  let params :=
    {| gm_narrow := apiNarrowOfNarrow (fa_narrow fetchArgs) (getAllUsersById s1);
       gm_anchor := fa_anchor fetchArgs;
       gm_numBefore := fa_numBefore fetchArgs;
       gm_numAfter := fa_numAfter fetchArgs;
       gm_useFirstUnread := Some (fa_anchor fetchArgs =? FIRST_UNREAD_ANCHOR) |} in
  let evs := events_since w (snd (run_async (fetchMessages fetchArgs) w)) in
  getMessages_calls evs = [(getAuth s1, params)]
  /\ List.length (remote_calls evs) = 1%nat.
Proof.
  intros s1 params evs.
  destruct (fetchMessages_events fetchArgs w) as (last & before & _ & Hev).
  fold s1 in Hev. fold params in Hev. fold evs in Hev. rewrite Hev.
  split.
  - change (getMessages_calls (?a ++ ?l))
      with ((getAuth s1, params) :: getMessages_calls l).
    rewrite getMessages_calls_dispatched. reflexivity.
  - change (remote_calls (?a ++ ?l))
      with (GetMessagesCall (getAuth s1) params :: remote_calls l).
    rewrite remote_calls_dispatched. reflexivity.
Qed.

Lemma fetchOlder_fires (narrow : Narrow) (w : World) (firstId : Z) :
  older_guard (store w) narrow ->
  getFirstMessageId (store w) narrow = Some firstId ->
  run_detached (fetchOlder narrow) w
  = snd (run_async (fetchMessages {| fa_narrow := narrow;
                                     fa_anchor := firstId;
                                     fa_numBefore := messagesPerRequest;
                                     fa_numAfter := 0%Q |}) w).
Proof.
  intros (Hn & Hf & Hc & _) Hid.
  unfold run_detached, fetchOlder, run_async, bind, getState.
  rewrite Hid, Hn, Hf, Hc. cbn. reflexivity.
Qed.

Lemma fetchOlder_idle (narrow : Narrow) (w : World) :
  ~ older_guard (store w) narrow -> fetchOlder narrow w = (None, w).
Proof.
  intros Hg. unfold fetchOlder, bind, getState.
  destruct (session_needsInitialFetch (store w)) eqn:Hn; cbn; [reflexivity|].
  destruct (f_older (getFetchingForNarrow (store w) narrow)) eqn:Hf; cbn;
    [reflexivity|].
  destruct (cu_older (getCaughtUpForNarrow (store w) narrow)) eqn:Hc; cbn;
    [reflexivity|].
  destruct (getFirstMessageId (store w) narrow) eqn:Hid; [|reflexivity].
  exfalso. apply Hg. unfold older_guard. rewrite Hid. repeat split; congruence.
Qed.

Lemma fetchNewer_fires (narrow : Narrow) (w : World) (lastId : Z) :
  newer_guard (store w) narrow ->
  getLastMessageId (store w) narrow = Some lastId ->
  run_detached (fetchNewer narrow) w
  = snd (run_async (fetchMessages {| fa_narrow := narrow;
                                     fa_anchor := lastId;
                                     fa_numBefore := 0%Q;
                                     fa_numAfter := messagesPerRequest |}) w).
Proof.
  intros (Hn & Hf & Hc & _) Hid.
  unfold run_detached, fetchNewer, run_async, bind, getState.
  rewrite Hid, Hn, Hf, Hc. cbn. reflexivity.
Qed.

Lemma fetchNewer_idle (narrow : Narrow) (w : World) :
  ~ newer_guard (store w) narrow -> fetchNewer narrow w = (None, w).
Proof.
  intros Hg. unfold fetchNewer, bind, getState.
  destruct (session_needsInitialFetch (store w)) eqn:Hn; cbn; [reflexivity|].
  destruct (f_newer (getFetchingForNarrow (store w) narrow)) eqn:Hf; cbn;
    [reflexivity|].
  destruct (cu_newer (getCaughtUpForNarrow (store w) narrow)) eqn:Hc; cbn;
    [reflexivity|].
  destruct (getLastMessageId (store w) narrow) eqn:Hid; [|reflexivity].
  exfalso. apply Hg. unfold newer_guard. rewrite Hid. repeat split; congruence.
Qed.

Lemma events_since_same (w : World) : events_since w w = [].
Proof. apply events_since_app. rewrite app_nil_r. reflexivity. Qed.

Lemma older_guard_dec (state : GlobalState) (narrow : Narrow) :
  older_guard state narrow \/ ~ older_guard state narrow.
Proof.
  unfold older_guard.
  destruct (session_needsInitialFetch state);
    destruct (f_older (getFetchingForNarrow state narrow));
    destruct (cu_older (getCaughtUpForNarrow state narrow));
    destruct (getFirstMessageId state narrow);
    try (right; intros (? & ? & ? & ?); congruence).
  left. repeat split; congruence.
Qed.

(** C3.  [fetchOlder] makes a request if and only if the session is past
    its initial fetch, no older fetch of the narrow is in flight, the
    narrow is not caught up towards older messages and its first message
    id is known.  The request then has [anchor = firstMessageId],
    [numBefore = config.messagesPerRequest] and [numAfter = 0]; in every
    other case the thunk leaves the world as it found it: no request, no
    action, no promise. *)
Theorem fetchOlder_issues_iff_guard (narrow : Narrow) (w : World) :
  let state := store w in
  let s1 := reducer state (messageFetchStart narrow messagesPerRequest 0) in
  let w' := run_detached (fetchOlder narrow) w in
  (older_guard state narrow <-> getMessages_calls (events_since w w') <> [])
  /\ (forall firstId : Z,
        older_guard state narrow ->
        getFirstMessageId state narrow = Some firstId ->
        getMessages_calls (events_since w w')
        = [(getAuth s1,
            {| gm_narrow := apiNarrowOfNarrow narrow (getAllUsersById s1);
               gm_anchor := firstId;
               gm_numBefore := messagesPerRequest;
               gm_numAfter := 0;
               gm_useFirstUnread := Some (firstId =? FIRST_UNREAD_ANCHOR) |})])
  /\ (~ older_guard state narrow ->
        fetchOlder narrow w = (None, w) /\ w' = w).
Proof.
  intros state s1 w'.
  assert (Hfire : forall firstId : Z,
        older_guard state narrow ->
        getFirstMessageId state narrow = Some firstId ->
        getMessages_calls (events_since w w')
        = [(getAuth s1,
            {| gm_narrow := apiNarrowOfNarrow narrow (getAllUsersById s1);
               gm_anchor := firstId;
               gm_numBefore := messagesPerRequest;
               gm_numAfter := 0;
               gm_useFirstUnread := Some (firstId =? FIRST_UNREAD_ANCHOR) |})]).
  { intros firstId Hg Hid. unfold w'.
    rewrite (@fetchOlder_fires narrow w firstId Hg Hid).
    exact (proj1 (fetchMessages_calls
                    {| fa_narrow := narrow; fa_anchor := firstId;
                       fa_numBefore := messagesPerRequest; fa_numAfter := 0%Q |}
                    w)). }
  assert (Hidle : ~ older_guard state narrow ->
                  fetchOlder narrow w = (None, w) /\ w' = w).
  { intros Hg. pose proof (@fetchOlder_idle narrow w Hg) as E. split; [exact E|].
    unfold w', run_detached. rewrite E. reflexivity. }
  split; [|split; assumption].
  split.
  - intros Hg.
    destruct (getFirstMessageId state narrow) as [firstId|] eqn:Hid.
    + rewrite (Hfire firstId Hg eq_refl). discriminate.
    + destruct Hg as (_ & _ & _ & Hne). congruence.
  - intros Hcalls. destruct (older_guard_dec state narrow) as [Hg|Hg];
      [exact Hg|].
    destruct (Hidle Hg) as [_ E]. rewrite E, events_since_same in Hcalls.
    exfalso. apply Hcalls. reflexivity.
Qed.

(** C5, amended.  [fetchMessages] first dispatches one start action and
    sends one request.  If the request succeeds and the store takes the
    complete action, that action carries the messages, the two found flags
    and the own user id read from the store at that moment, and the thunk
    fulfils with the messages.  If the request succeeds but the store
    throws on the complete action, the error action with what was thrown
    follows it and the thunk rejects with that error.  If the request
    fails, the thunk dispatches one error action and rejects with the same
    error.  In every case a single request is sent: there is no retry. *)
Theorem fetchMessages_start_then_outcome (fetchArgs : FetchArgs) (w : World) :
  let narrow := fa_narrow fetchArgs in
  let start := messageFetchStart narrow (fa_numBefore fetchArgs)
                 (fa_numAfter fetchArgs) in
  let s1 := reducer (store w) start in
  let params :=
    {| gm_narrow := apiNarrowOfNarrow narrow (getAllUsersById s1);
       gm_anchor := fa_anchor fetchArgs;
       gm_numBefore := fa_numBefore fetchArgs;
       gm_numAfter := fa_numAfter fetchArgs;
       gm_useFirstUnread := Some (fa_anchor fetchArgs =? FIRST_UNREAD_ANCHOR) |} in
  let done (response : GetMessagesResponse) :=
    messageFetchComplete (messages response) narrow (fa_anchor fetchArgs)
      (fa_numBefore fetchArgs) (fa_numAfter fetchArgs) (found_newest response)
      (found_oldest response) (getOwnUserId (meanwhile s1)) in
  let sent := snd (fetchMessages fetchArgs w) in
  let settled := run_async (fetchMessages fetchArgs) w in
  events_since w sent = [Dispatched start; GetMessagesCall (getAuth s1) params]
  /\ (forall response : GetMessagesResponse,
        api_getMessages (getAuth s1) params = Ok response ->
        reducer_throws (meanwhile s1) (done response) = None ->
        fst settled = Ok (messages response)
        /\ events_since w (snd settled)
           = [Dispatched start; GetMessagesCall (getAuth s1) params;
              Dispatched (done response)])
  /\ (forall (response : GetMessagesResponse) (e : JsError),
        api_getMessages (getAuth s1) params = Ok response ->
        reducer_throws (meanwhile s1) (done response) = Some e ->
        fst settled = Throw e
        /\ events_since w (snd settled)
           = [Dispatched start; GetMessagesCall (getAuth s1) params;
              Dispatched (done response);
              Dispatched (messageFetchError narrow e)])
  /\ (forall e : JsError,
        api_getMessages (getAuth s1) params = Throw e ->
        fst settled = Throw e
        /\ events_since w (snd settled)
           = [Dispatched start; GetMessagesCall (getAuth s1) params;
              Dispatched (messageFetchError narrow e)])
  /\ List.length (remote_calls (events_since w (snd settled))) = 1%nat.
Proof.
  intros narrow start s1 params done sent settled.
  pose proof (fetchMessages_settles fetchArgs w) as Hs. cbn zeta in Hs.
  fold narrow in Hs. fold start in Hs. fold s1 in Hs. fold params in Hs.
  fold settled in Hs.
  split; [|split; [|split; [|split]]].
  - apply events_since_app. unfold sent. rewrite fetchMessages_prefix.
    reflexivity.
  - intros response Hok Htakes. rewrite Hok in Hs.
    unfold done in Htakes. rewrite Htakes in Hs. rewrite Hs.
    split; [reflexivity|]. apply events_since_app. reflexivity.
  - intros response e Hok Hthrows. rewrite Hok in Hs.
    unfold done in Hthrows. rewrite Hthrows in Hs. rewrite Hs.
    split; [reflexivity|]. apply events_since_app. reflexivity.
  - intros e Herr. rewrite Herr in Hs. rewrite Hs.
    split; [reflexivity|]. apply events_since_app. reflexivity.
  - exact (proj2 (fetchMessages_calls fetchArgs w)).
Qed.

Lemma fetchNewer_repeated_idle (n : nat) (narrow : Narrow) (w : World) :
  f_newer (getFetchingForNarrow (store w) narrow) = true ->
  fetchNewer_repeated n narrow w = (tt, w).
Proof.
  intros Hf. induction n as [|n IH]; [reflexivity|].
  cbn [fetchNewer_repeated]. unfold bind.
  rewrite fetchNewer_idle; [exact IH|].
  intros (_ & Hno & _). congruence.
Qed.

(** C7, amended.  While the newer-direction flag of a narrow is set in
    the state [fetchNewer] reads, [fetchNewer] does nothing: no request,
    no action, no promise, however often it is triggered; and it sends a
    request only when it reads the flag as unset.  With a store that sets
    the flag when it sees the start action of a newer-direction fetch, a
    first [fetchNewer] that passes the guard sends one request and leaves
    the flag set; every further trigger before anything else happens
    sends none, and neither does a trigger in any later world in which
    the flag is still set.  The flag is all [fetchNewer] looks at: the
    code keeps no record of the request that is still outstanding. *)
Theorem fetchNewer_in_flight_is_noop (narrow : Narrow) (w : World) :
  (f_newer (getFetchingForNarrow (store w) narrow) = true ->
     fetchNewer narrow w = (None, w)
     /\ run_detached (fetchNewer narrow) w = w
     /\ forall n : nat, fetchNewer_repeated n narrow w = (tt, w))
  /\ (getMessages_calls (events_since w (snd (fetchNewer narrow w))) <> [] ->
      f_newer (getFetchingForNarrow (store w) narrow) = false)
  /\ (newer_guard (store w) narrow ->
      (forall s : GlobalState,
         f_newer (getFetchingForNarrow
                    (reducer s (messageFetchStart narrow 0 messagesPerRequest))
                    narrow) = true) ->
      let w1 := snd (fetchNewer narrow w) in
      List.length (getMessages_calls (events_since w w1)) = 1%nat
      /\ f_newer (getFetchingForNarrow (store w1) narrow) = true
      /\ (forall n : nat, fetchNewer_repeated n narrow w1 = (tt, w1))
      /\ forall later : World,
           f_newer (getFetchingForNarrow (store later) narrow) = true ->
           fetchNewer narrow later = (None, later)
           /\ run_detached (fetchNewer narrow) later = later).
Proof.
  assert (Hidle : forall v : World,
             f_newer (getFetchingForNarrow (store v) narrow) = true ->
             fetchNewer narrow v = (None, v)).
  { intros v Hf. apply fetchNewer_idle. intros (_ & Hno & _). congruence. }
  split; [|split].
  - intros Hf. split; [exact (Hidle w Hf)|]. split.
    + unfold run_detached. rewrite (Hidle w Hf). reflexivity.
    + intros n. apply fetchNewer_repeated_idle. exact Hf.
  - intros Hcalls.
    destruct (f_newer (getFetchingForNarrow (store w) narrow)) eqn:Hf;
      [|reflexivity].
    exfalso. apply Hcalls. rewrite (Hidle w Hf). cbn [snd].
    rewrite events_since_same. reflexivity.
  - intros (Hn & Hf & Hc & Hid) Hmark w1.
    destruct (getLastMessageId (store w) narrow) as [lastId|] eqn:Hlast;
      [|congruence].
    assert (E : w1 = snd (fetchMessages {| fa_narrow := narrow;
                                           fa_anchor := lastId;
                                           fa_numBefore := 0%Q;
                                           fa_numAfter := messagesPerRequest |} w)).
    { unfold w1, fetchNewer, bind, getState. rewrite Hlast, Hn, Hf, Hc. cbn.
      reflexivity. }
    rewrite fetchMessages_prefix in E. cbn [fa_narrow fa_numBefore fa_numAfter] in E.
    assert (Hset : f_newer (getFetchingForNarrow (store w1) narrow) = true).
    { rewrite E. cbn [store]. apply Hmark. }
    split; [|split; [exact Hset|split]].
    + rewrite (@events_since_app w w1 _ (f_equal trace E)). reflexivity.
    + intros n. apply fetchNewer_repeated_idle. exact Hset.
    + intros later Hlater. split; [exact (Hidle later Hlater)|].
      unfold run_detached. rewrite (Hidle later Hlater). reflexivity.
Qed.

Lemma fetchMessagesInNarrow_idle (narrow : Narrow) (anchor_arg : option Z)
    (w : World) :
  isFetchNeededAtAnchor (store w) narrow (anchor_or_default anchor_arg) = false ->
  snd (fetchMessagesInNarrow narrow anchor_arg w) = w
  /\ run_async (fetchMessagesInNarrow narrow anchor_arg) w = (Ok None, wake w).
Proof.
  intros Hno. unfold run_async, fetchMessagesInNarrow, bind, getState.
  fold (anchor_or_default anchor_arg). rewrite Hno. cbn. split; reflexivity.
Qed.

Lemma fetchMessagesInNarrow_fires (narrow : Narrow) (anchor_arg : option Z)
    (w : World) :
  isFetchNeededAtAnchor (store w) narrow (anchor_or_default anchor_arg) = true ->
  run_async (fetchMessagesInNarrow narrow anchor_arg) w
  = match run_async (fetchMessages
                       (centering_args narrow (anchor_or_default anchor_arg))) w with
    | (Ok msgs, w') => (Ok (Some msgs), w')
    | (Throw e, w') => (Throw e, w')
    end.
Proof.
  intros Hyes. unfold run_async at 1. unfold fetchMessagesInNarrow, bind, getState.
  fold (anchor_or_default anchor_arg). rewrite Hyes. cbn [negb].
  fold (centering_args narrow (anchor_or_default anchor_arg)).
  unfold run_async.
  destruct (fetchMessages (centering_args narrow (anchor_or_default anchor_arg)) w)
    as [p w1].
  cbn. unfold resume. reflexivity.
Qed.

Lemma fetchMessagesInNarrow_calls (narrow : Narrow) (anchor_arg : option Z)
    (w : World) :
  let anchor := anchor_or_default anchor_arg in
  let half := (messagesPerRequest / (2 # 1))%Q in
  let s1 := reducer (store w) (messageFetchStart narrow half half) in
  getMessages_calls
    (events_since w (snd (run_async (fetchMessagesInNarrow narrow anchor_arg) w)))
  = if isFetchNeededAtAnchor (store w) narrow anchor
    then [(getAuth s1,
           {| gm_narrow := apiNarrowOfNarrow narrow (getAllUsersById s1);
              gm_anchor := anchor;
              gm_numBefore := half;
              gm_numAfter := half;
              gm_useFirstUnread := Some (anchor =? FIRST_UNREAD_ANCHOR) |})]
    else [].
Proof.
  intros anchor half s1.
  destruct (isFetchNeededAtAnchor (store w) narrow anchor) eqn:Hneed.
  - rewrite (@fetchMessagesInNarrow_fires narrow anchor_arg w Hneed).
    destruct (fetchMessages_calls (centering_args narrow anchor) w) as [Hev _].
    fold anchor.
    destruct (run_async (fetchMessages (centering_args narrow anchor)) w)
      as [[msgs|e] w'] eqn:Hrun; cbn [snd] in *; exact Hev.
  - destruct (@fetchMessagesInNarrow_idle narrow anchor_arg w Hneed) as [_ E].
    rewrite E. cbn [snd].
    rewrite (@events_since_app w (wake w) []); [reflexivity|].
    cbn. rewrite app_nil_r. reflexivity.
Qed.

(** C4.  When the narrow is caught up in both directions
    [fetchMessagesInNarrow] sends no request, dispatches nothing and
    resolves to [undefined]; otherwise it sends exactly one request, at the
    anchor given (by default [FIRST_UNREAD_ANCHOR]), with [numBefore] and
    [numAfter] both half of [config.messagesPerRequest]. *)
Theorem fetchMessagesInNarrow_centering (narrow : Narrow) (anchor_arg : option Z)
    (w : World) :
  let state := store w in
  let anchor := match anchor_arg with
                | Some a => a
                | None => FIRST_UNREAD_ANCHOR
                end in
  let half := (messagesPerRequest / (2 # 1))%Q in
  let s1 := reducer state (messageFetchStart narrow half half) in
  let settled := run_async (fetchMessagesInNarrow narrow anchor_arg) w in
  (cu_older (getCaughtUpForNarrow state narrow) = true ->
   cu_newer (getCaughtUpForNarrow state narrow) = true ->
     fst settled = Ok None
     /\ events_since w (snd settled) = []
     /\ snd (fetchMessagesInNarrow narrow anchor_arg w) = w)
  /\ (~ (cu_older (getCaughtUpForNarrow state narrow) = true
         /\ cu_newer (getCaughtUpForNarrow state narrow) = true) ->
     getMessages_calls (events_since w (snd settled))
     = [(getAuth s1,
         {| gm_narrow := apiNarrowOfNarrow narrow (getAllUsersById s1);
            gm_anchor := anchor;
            gm_numBefore := half;
            gm_numAfter := half;
            gm_useFirstUnread := Some (anchor =? FIRST_UNREAD_ANCHOR) |})]
     /\ List.length (remote_calls (events_since w (snd settled))) = 1%nat
     /\ fst settled <> Ok None).
Proof.
  intros state anchor half s1 settled.
  change anchor with (anchor_or_default anchor_arg) in *.
  split.
  - intros Ho Hn.
    assert (Hno : isFetchNeededAtAnchor (store w) narrow
                    (anchor_or_default anchor_arg) = false).
    { unfold isFetchNeededAtAnchor. fold state. rewrite Ho, Hn. reflexivity. }
    destruct (@fetchMessagesInNarrow_idle narrow anchor_arg w Hno) as [E1 E2].
    unfold settled. rewrite E2. cbn [fst snd].
    split; [reflexivity|]. split; [|exact E1].
    apply events_since_app. cbn. rewrite app_nil_r. reflexivity.
  - intros Hnot.
    assert (Hyes : isFetchNeededAtAnchor (store w) narrow
                     (anchor_or_default anchor_arg) = true).
    { unfold isFetchNeededAtAnchor. fold state.
      destruct (cu_older (getCaughtUpForNarrow state narrow));
        destruct (cu_newer (getCaughtUpForNarrow state narrow));
        try reflexivity.
      exfalso. apply Hnot. split; reflexivity. }
    split; [|split].
    + unfold settled. rewrite fetchMessagesInNarrow_calls. rewrite Hyes.
      reflexivity.
    + unfold settled.
      rewrite (@fetchMessagesInNarrow_fires narrow anchor_arg w Hyes).
      destruct (fetchMessages_calls
                  (centering_args narrow (anchor_or_default anchor_arg)) w)
        as [_ Hev].
      destruct (run_async (fetchMessages
                  (centering_args narrow (anchor_or_default anchor_arg))) w)
        as [[msgs|e] w'] eqn:Hrun; cbn [snd] in *; exact Hev.
    + unfold settled.
      rewrite (@fetchMessagesInNarrow_fires narrow anchor_arg w Hyes).
      destruct (run_async (fetchMessages
                  (centering_args narrow (anchor_or_default anchor_arg))) w)
        as [[msgs|e] w']; cbn; discriminate.
Qed.

(** C9.  Whether [fetchMessagesInNarrow] fetches does not depend on the
    anchor: [isFetchNeededAtAnchor] gives the same answer for any two
    anchors, namely that the narrow is not caught up in both directions.
    The anchor only appears in the request: the anchors requested are the
    given anchor if a fetch is needed and none otherwise. *)
Theorem isFetchNeededAtAnchor_ignores_anchor (narrow : Narrow) (w : World)
    (a1 a2 : Z) :
  let state := store w in
  let requested (a : Z) :=
    map (fun c => gm_anchor (snd c))
      (getMessages_calls
         (events_since w
            (snd (run_async (fetchMessagesInNarrow narrow (Some a)) w)))) in
  isFetchNeededAtAnchor state narrow a1 = isFetchNeededAtAnchor state narrow a2
  /\ isFetchNeededAtAnchor state narrow a1
     = negb (cu_older (getCaughtUpForNarrow state narrow)
             && cu_newer (getCaughtUpForNarrow state narrow))
  /\ requested a1 = (if isFetchNeededAtAnchor state narrow a2 then [a1] else [])
  /\ requested a2 = (if isFetchNeededAtAnchor state narrow a1 then [a2] else []).
Proof.
  intros state requested. split; [reflexivity|]. split.
  - unfold isFetchNeededAtAnchor. rewrite andb_comm. reflexivity.
  - unfold requested. rewrite !fetchMessagesInNarrow_calls.
    cbn [anchor_or_default]. fold state.
    change (isFetchNeededAtAnchor state narrow a2)
      with (isFetchNeededAtAnchor state narrow a1).
    destruct (isFetchNeededAtAnchor state narrow a1); split; reflexivity.
Qed.

Lemma fetchPrivateMessages_settles (w : World) :
  let params :=
    {| gm_narrow := apiNarrowOfNarrow ALL_PRIVATE_NARROW (getAllUsersById (store w));
       gm_anchor := LAST_MESSAGE_ANCHOR;
       gm_numBefore := 100 # 1;
       gm_numAfter := 0;
       gm_useFirstUnread := None |} in
  let call := GetMessagesCall (getAuth (store w)) params in
  snd (fetchPrivateMessages w)
  = {| store := store w; trace := trace w ++ [call] |}
  /\ run_async fetchPrivateMessages w
     = match api_getMessages (getAuth (store w)) params with
       | Ok response =>
           let done :=
             messageFetchComplete (messages response) ALL_PRIVATE_NARROW
               LAST_MESSAGE_ANCHOR (100 # 1) 0 (found_newest response)
               (found_oldest response) (getOwnUserId (meanwhile (store w))) in
           (Ok tt,
            {| store := reducer (meanwhile (store w)) done;
               trace := trace w ++ [call; Dispatched done] |})
       | Throw e =>
           (Throw e,
            {| store := meanwhile (store w); trace := trace w ++ [call] |})
       end.
Proof.
  split; [reflexivity|].
  cbn. unfold resume, wake. cbn.
  destruct (api_getMessages _ _); cbn; [rewrite <- app_assoc|]; reflexivity.
Qed.

(** C10.  [fetchPrivateMessages] dispatches nothing before its request: no
    start action.  If the request succeeds, the one action it dispatches is
    a complete action for [ALL_PRIVATE_NARROW]; if the request fails, it
    dispatches nothing at all, no error action either, and rejects with the
    error, whereas [fetchMessages] facing the same failure dispatches an
    error action. *)
Theorem fetchPrivateMessages_only_signals_completion (w : World) :
  let auth := getAuth (store w) in
  let params :=
    {| gm_narrow := apiNarrowOfNarrow ALL_PRIVATE_NARROW (getAllUsersById (store w));
       gm_anchor := LAST_MESSAGE_ANCHOR;
       gm_numBefore := 100 # 1;
       gm_numAfter := 0;
       gm_useFirstUnread := None |} in
  let sent := snd (fetchPrivateMessages w) in
  let settled := run_async fetchPrivateMessages w in
  events_since w sent = [GetMessagesCall auth params]
  /\ (forall response : GetMessagesResponse,
        api_getMessages auth params = Ok response ->
        fst settled = Ok tt
        /\ signals (events_since w (snd settled))
           = [messageFetchComplete (messages response) ALL_PRIVATE_NARROW
                LAST_MESSAGE_ANCHOR (100 # 1) 0 (found_newest response)
                (found_oldest response) (getOwnUserId (meanwhile (store w)))])
  /\ (forall e : JsError,
        api_getMessages auth params = Throw e ->
        fst settled = Throw e
        /\ signals (events_since w (snd settled)) = []
        /\ forall fetchArgs : FetchArgs,
             fst (run_async (fetchMessages fetchArgs) w) = Throw e ->
             In (messageFetchError (fa_narrow fetchArgs) e)
                (signals (events_since w
                   (snd (run_async (fetchMessages fetchArgs) w))))).
Proof.
  intros auth params sent settled.
  destruct (fetchPrivateMessages_settles w) as [Hsent Hrun].
  fold auth in Hsent, Hrun. fold params in Hsent, Hrun.
  split; [|split].
  - apply events_since_app. unfold sent. rewrite Hsent. reflexivity.
  - intros response Hok. unfold settled. rewrite Hrun, Hok.
    split; [reflexivity|].
    rewrite (@events_since_app w _
               [GetMessagesCall auth params;
                Dispatched
                  (messageFetchComplete (messages response) ALL_PRIVATE_NARROW
                     LAST_MESSAGE_ANCHOR (100 # 1) 0 (found_newest response)
                     (found_oldest response)
                     (getOwnUserId (meanwhile (store w))))]);
      reflexivity.
  - intros e Herr. unfold settled. rewrite Hrun, Herr.
    split; [reflexivity|]. split.
    + rewrite (@events_since_app w _ [GetMessagesCall auth params]);
        reflexivity.
    + intros fetchArgs Hthrow.
      pose proof (fetchMessages_settles fetchArgs w) as Hs. cbn zeta in Hs.
      destruct (api_getMessages _ _) as [response|e'] in Hs;
        [destruct (reducer_throws _ _) as [e'|] in Hs|];
        rewrite Hs in Hthrow |- *; cbn [fst snd] in *; try discriminate;
        injection Hthrow as ->;
        (erewrite events_since_app by (cbn [trace]; reflexivity));
        cbn; auto.
Qed.

(** *** The retry loop *)

Section Retry.

Context {T : Type}.
Variable func : AsyncFunction T.

Lemma tryFetch_step_settled (l : Loop T) (r : Res T) (w : World) :
  stage l = Settled r -> tryFetch_step func l w = (l, w).
Proof. intros H. unfold tryFetch_step. rewrite H. reflexivity. Qed.

Lemma tryFetch_run_settled (fuel : nat) (l : Loop T) (r : Res T) (w : World) :
  stage l = Settled r -> tryFetch_run fuel func l w = (l, w).
Proof.
  intros H. induction fuel as [|fuel IH]; [reflexivity|].
  cbn [tryFetch_run]. unfold bind.
  rewrite (@tryFetch_step_settled l r w H). exact IH.
Qed.

Lemma tryFetch_step_ok (l : Loop T) (p : Promise T) (v : T) (w : World) :
  stage l = AwaitingFunc p -> promise_settles p (Ok v) ->
  fst (tryFetch_step func l w)
  = {| backoffMachine := backoffMachine l; calls := calls l;
       stage := Settled (Ok v) |}.
Proof.
  intros H Hp. unfold tryFetch_step, resume. rewrite H.
  specialize (Hp (wake w)). destruct (p (wake w)) as [r w'].
  cbn in Hp. subst r. reflexivity.
Qed.

Lemma tryFetch_step_client (l : Loop T) (p : Promise T) (e : JsError) (w : World) :
  stage l = AwaitingFunc p -> promise_settles p (Throw e) ->
  isClientError e = true ->
  fst (tryFetch_step func l w)
  = {| backoffMachine := backoffMachine l; calls := calls l;
       stage := Settled (Throw e) |}.
Proof.
  intros H Hp He. unfold tryFetch_step, resume. rewrite H.
  specialize (Hp (wake w)). destruct (p (wake w)) as [r w'].
  cbn in Hp. subst r. rewrite He. reflexivity.
Qed.

Lemma tryFetch_step_transient (l : Loop T) (p : Promise T) (e : JsError)
    (w : World) :
  stage l = AwaitingFunc p -> promise_settles p (Throw e) ->
  isClientError e = false ->
  fst (tryFetch_step func l w)
  = {| backoffMachine := {| waits := S (waits (backoffMachine l)) |};
       calls := calls l;
       stage := AwaitingBackoff |}.
Proof.
  intros H Hp He. unfold tryFetch_step, resume. rewrite H.
  specialize (Hp (wake w)). destruct (p (wake w)) as [r w'].
  cbn in Hp. subst r. rewrite He. reflexivity.
Qed.

Lemma tryFetch_step_backoff (l : Loop T) (w : World) :
  stage l = AwaitingBackoff ->
  fst (tryFetch_step func l w)
  = {| backoffMachine := backoffMachine l; calls := S (calls l);
       stage := AwaitingFunc (fst (func (calls l) (wake w))) |}.
Proof.
  intros H. unfold tryFetch_step. rewrite H. unfold bind.
  destruct (func (calls l) (wake w)) as [p w']. reflexivity.
Qed.

Lemma tryFetch_run_S (fuel : nat) (l : Loop T) (w : World) :
  tryFetch_run (S fuel) func l w
  = tryFetch_run fuel func (fst (tryFetch_step func l w))
      (snd (tryFetch_step func l w)).
Proof.
  cbn [tryFetch_run]. unfold bind.
  destruct (tryFetch_step func l w). reflexivity.
Qed.

(** From the call [n], [k] transient failures and then a last call that
    settles with [r], which ends the loop: the loop ends with [r] after
    [k] more waits. *)
Lemma tryFetch_run_rounds (k : nat) :
  forall (n fuel : nat) (l : Loop T) (w : World) (r : Res T),
    at_call func n l ->
    (forall i : nat, (n <= i < n + k)%nat -> fails_transiently func i) ->
    settles_with func (n + k) r ->
    (forall e : JsError, r = Throw e -> isClientError e = true) ->
    (2 * k + 1 <= fuel)%nat ->
    fst (tryFetch_run fuel func l w)
    = {| backoffMachine := {| waits := n + k |}; calls := S (n + k);
         stage := Settled r |}.
Proof.
  induction k as [|k IH]; intros n fuel l w r Hat Htrans Hlast Hr Hfuel.
  - destruct Hat as (Hw & Hc & w0 & Hs).
    destruct fuel as [|fuel]; [lia|].
    rewrite tryFetch_run_S. rewrite Nat.add_0_r in *.
    assert (E : fst (tryFetch_step func l w)
                = {| backoffMachine := {| waits := n |}; calls := S n;
                     stage := Settled r |}).
    { destruct r as [v|e].
      - rewrite (@tryFetch_step_ok l _ v w Hs (Hlast w0)).
        destruct l as [[m] c s]. cbn in *. subst. reflexivity.
      - rewrite (@tryFetch_step_client l _ e w Hs (Hlast w0) (Hr e eq_refl)).
        destruct l as [[m] c s]. cbn in *. subst. reflexivity. }
    rewrite (@tryFetch_run_settled fuel _ r _); rewrite E; reflexivity.
  - destruct Hat as (Hw & Hc & w0 & Hs).
    destruct fuel as [|[|fuel]]; try lia.
    destruct (Htrans n) as (e & He & Hfail); [lia|].
    rewrite tryFetch_run_S.
    pose proof (@tryFetch_step_transient l _ e w Hs (Hfail w0) He) as E1.
    set (l1 := fst (tryFetch_step func l w)) in *.
    set (w1 := snd (tryFetch_step func l w)).
    rewrite tryFetch_run_S.
    assert (Hs1 : stage l1 = AwaitingBackoff) by (rewrite E1; reflexivity).
    pose proof (@tryFetch_step_backoff l1 w1 Hs1) as E2.
    set (l2 := fst (tryFetch_step func l1 w1)) in *.
    set (w2 := snd (tryFetch_step func l1 w1)).
    replace (n + S k)%nat with (S n + k)%nat by lia.
    apply IH.
    + rewrite E2, E1. cbn. rewrite Hw, Hc. repeat split.
      exists (wake w1). reflexivity.
    + intros i Hi. apply Htrans. lia.
    + replace (S n + k)%nat with (n + S k)%nat by lia. exact Hlast.
    + exact Hr.
    + lia.
Qed.

Lemma tryFetch_step_keeps_ends (l : Loop T) (w : World) :
  ends_only_on_client_error l ->
  ends_only_on_client_error (fst (tryFetch_step func l w)).
Proof.
  intros Hl. unfold tryFetch_step, resume.
  destruct (stage l) as [p| |r] eqn:Hs.
  - destruct (p (wake w)) as [[v|e] w'].
    + intros e'. cbn. discriminate.
    + destruct (isClientError e) eqn:He.
      * intros e'. cbn. intros H. injection H as <-. exact He.
      * intros e'. cbn. discriminate.
  - unfold bind. destruct (func (calls l) (wake w)) as [p w'].
    intros e'. cbn. discriminate.
  - cbn. exact Hl.
Qed.

Lemma tryFetch_run_keeps_ends (fuel : nat) :
  forall (l : Loop T) (w : World),
    ends_only_on_client_error l ->
    ends_only_on_client_error (fst (tryFetch_run fuel func l w)).
Proof.
  induction fuel as [|fuel IH]; intros l w Hl; [exact Hl|].
  rewrite tryFetch_run_S. apply IH. apply tryFetch_step_keeps_ends. exact Hl.
Qed.

(** With transient failures only, the loop never ends. *)
Lemma tryFetch_run_never_ends (n fuel : nat) :
  (forall i : nat, (n <= i)%nat -> fails_transiently func i) ->
  forall (l : Loop T) (w : World),
    suspended_from func n l ->
    suspended_from func n (fst (tryFetch_run fuel func l w)).
Proof.
  intros Htrans. induction fuel as [|fuel IH]; intros l w Hl; [exact Hl|].
  rewrite tryFetch_run_S. apply IH.
  destruct Hl as [Hc [Hs|(i & w0 & Hi & Hs)]].
  - rewrite (@tryFetch_step_backoff l w Hs). split; cbn; [lia|].
    right. exists (calls l), (wake w). split; [exact Hc|reflexivity].
  - destruct (Htrans i Hi) as (e & He & Hfail).
    rewrite (@tryFetch_step_transient l _ e w Hs (Hfail w0) He).
    split; cbn; [exact Hc|]. left. reflexivity.
Qed.

Lemma tryFetch_unfold (fuel : nat) (w : World) :
  tryFetch fuel func w
  = tryFetch_run fuel func (fst (tryFetch_start func w))
      (snd (tryFetch_start func w)).
Proof.
  unfold tryFetch, bind. destruct (tryFetch_start func w). reflexivity.
Qed.

Lemma tryFetch_start_at_call (w : World) :
  at_call func 0 (fst (tryFetch_start func w)).
Proof.
  unfold tryFetch_start, bind, at_call.
  destruct (func 0%nat w) as [p w'] eqn:E. cbn.
  repeat split. exists w. rewrite E. reflexivity.
Qed.

(** C1.  [tryFetch] around any [func].  If the calls of [func] fail [k]
    times with errors that are not client errors and the next call
    fails with a client error, [tryFetch] rejects with that error after
    [k] waits and [k + 1] calls: with [k = 0], no wait at all.  If the
    next call succeeds instead, [tryFetch] fulfils with its value, again
    after exactly [k] waits.  Whenever [tryFetch] rejects, the error is a
    client error; and while the calls fail with other errors only, the
    loop never ends, however long it is followed. *)
Theorem tryFetch_retries_until_settled (w : World) :
  (forall (k : nat) (e : JsError) (fuel : nat),
      (forall i : nat, (i < k)%nat -> fails_transiently func i) ->
      settles_with func k (Throw e) ->
      isClientError e = true ->
      (2 * k + 1 <= fuel)%nat ->
      fst (tryFetch fuel func w)
      = {| backoffMachine := {| waits := k |}; calls := S k;
           stage := Settled (Throw e) |})
  /\ (forall (k : nat) (v : T) (fuel : nat),
      (forall i : nat, (i < k)%nat -> fails_transiently func i) ->
      settles_with func k (Ok v) ->
      (2 * k + 1 <= fuel)%nat ->
      fst (tryFetch fuel func w)
      = {| backoffMachine := {| waits := k |}; calls := S k;
           stage := Settled (Ok v) |})
  /\ (forall (fuel : nat) (e : JsError),
      stage (fst (tryFetch fuel func w)) = Settled (Throw e) ->
      isClientError e = true)
  /\ ((forall i : nat, fails_transiently func i) ->
      forall (fuel : nat) (r : Res T),
        stage (fst (tryFetch fuel func w)) <> Settled r).
Proof.
  split; [|split; [|split]].
  - intros k e fuel Htrans Hlast He Hfuel. rewrite tryFetch_unfold.
    apply (@tryFetch_run_rounds k 0 fuel _ _ (Throw e)).
    + apply tryFetch_start_at_call.
    + intros i Hi. apply Htrans. lia.
    + exact Hlast.
    + intros e' H. injection H as <-. exact He.
    + exact Hfuel.
  - intros k v fuel Htrans Hlast Hfuel. rewrite tryFetch_unfold.
    apply (@tryFetch_run_rounds k 0 fuel _ _ (Ok v)).
    + apply tryFetch_start_at_call.
    + intros i Hi. apply Htrans. lia.
    + exact Hlast.
    + intros e' H. discriminate.
    + exact Hfuel.
  - intros fuel e. rewrite tryFetch_unfold.
    apply tryFetch_run_keeps_ends.
    intros e' H. destruct (tryFetch_start_at_call w) as (_ & _ & w0 & Hs).
    rewrite Hs in H. discriminate.
  - intros Htrans fuel r. rewrite tryFetch_unfold.
    assert (Hs : suspended_from func 0
                   (fst (tryFetch_run fuel func (fst (tryFetch_start func w))
                           (snd (tryFetch_start func w))))).
    { apply tryFetch_run_never_ends.
      - intros i _. apply Htrans.
      - destruct (tryFetch_start_at_call w) as (_ & Hc & w0 & Hs).
        split; [lia|]. right. exists 0%nat, w0. split; [lia|exact Hs]. }
    destruct Hs as [_ [Hs|(i & w0 & _ & Hs)]]; rewrite Hs; discriminate.
Qed.

End Retry.

(** *** The initial fetch *)

Lemma signals_app (a b : list Event) : signals (a ++ b) = signals a ++ signals b.
Proof. apply flat_map_app. Qed.

Lemma getMessages_calls_app (a b : list Event) :
  getMessages_calls (a ++ b) = getMessages_calls a ++ getMessages_calls b.
Proof. apply flat_map_app. Qed.

Lemma retry_events_silent (evs : list Event) :
  forallb is_retry_event evs = true ->
  signals evs = [] /\ getMessages_calls evs = [].
Proof.
  induction evs as [|e evs IH]; cbn; [auto|].
  intros H. apply andb_prop in H as [He H]. destruct (IH H) as [IH1 IH2].
  destruct e; cbn in *; try discriminate; auto.
Qed.

Lemma registerForEvents_func_quiet (auth : Auth) :
  quiet_func (registerForEvents_func auth).
Proof.
  intros n w. split; [|reflexivity].
  eexists. split; [|reflexivity]. reflexivity.
Qed.

Lemma getServerSettings_func_quiet (auth : Auth) :
  quiet_func (getServerSettings_func auth).
Proof.
  intros n w. split; [|reflexivity].
  eexists. split; [|reflexivity]. reflexivity.
Qed.

Lemma tryFetch_start_events {T} (f : AsyncFunction T) (w : World) :
  quiet_func f ->
  (exists e : Event,
      is_retry_event e = true
      /\ trace (snd (tryFetch_start f w)) = trace w ++ [e])
  /\ quiet_loop (fst (tryFetch_start f w))
  /\ ends_only_on_client_error (fst (tryFetch_start f w)).
Proof.
  intros Hf. destruct (Hf 0%nat w) as [(e & He & Htr) Hp].
  unfold tryFetch_start, bind.
  destruct (f 0%nat w) as [p w'] eqn:E. cbn in *.
  split; [exists e; auto|]. split.
  - intros p' H. injection H as <-. exact Hp.
  - intros e' H. discriminate.
Qed.

Lemma tryFetch_step_events {T} (f : AsyncFunction T) (l : Loop T) (w : World) :
  quiet_func f -> quiet_loop l ->
  (exists evs : list Event,
      trace (snd (tryFetch_step f l w)) = trace w ++ evs
      /\ forallb is_retry_event evs = true)
  /\ quiet_loop (fst (tryFetch_step f l w)).
Proof.
  intros Hf Hl. unfold tryFetch_step, resume.
  destruct (stage l) as [p| |r] eqn:Hs.
  - pose proof (Hl p Hs (wake w)) as Hq.
    destruct (p (wake w)) as [[v|e] w'] eqn:Hp; cbn [snd] in Hq.
    + split; [exists []; cbn; rewrite app_nil_r; auto|].
      intros p' H. discriminate.
    + destruct (isClientError e).
      * split; [exists []; cbn; rewrite app_nil_r; auto|].
        intros p' H. discriminate.
      * split; [exists [BackoffWait]; cbn; rewrite Hq; auto|].
        intros p' H. discriminate.
  - destruct (Hf (calls l) (wake w)) as [(e & He & Htr) Hp].
    unfold bind. destruct (f (calls l) (wake w)) as [p w'] eqn:E. cbn in *.
    split; [exists [e]; cbn; rewrite He; auto|].
    intros p' H. injection H as <-. exact Hp.
  - split; [exists []; cbn; rewrite app_nil_r; auto|].
    cbn. exact Hl.
Qed.

Section Both.

Context {A B : Type}.
Variable f1 : AsyncFunction A.
Variable f2 : AsyncFunction B.
Hypothesis quiet1 : quiet_func f1.
Hypothesis quiet2 : quiet_func f2.

Lemma promise_all_unfold (schedule : list Turn) (l1 : Loop A) (l2 : Loop B)
    (w : World) :
  promise_all schedule f1 f2 l1 l2 w
  = match settle_all l1 l2 with
    | Some r => ({| settlement := Some r; first_loop := l1; second_loop := l2;
                    schedule_left := schedule |}, w)
    | None =>
        match schedule with
        | [] => ({| settlement := None; first_loop := l1; second_loop := l2;
                    schedule_left := [] |}, w)
        | First :: rest =>
            promise_all rest f1 f2 (fst (tryFetch_step f1 l1 w)) l2
              (snd (tryFetch_step f1 l1 w))
        | Second :: rest =>
            promise_all rest f1 f2 l1 (fst (tryFetch_step f2 l2 w))
              (snd (tryFetch_step f2 l2 w))
        end
    end.
Proof.
  destruct schedule as [|[|] rest]; cbn [promise_all];
    destruct (settle_all l1 l2); try reflexivity; unfold bind.
  - destruct (tryFetch_step f1 l1 w). reflexivity.
  - destruct (tryFetch_step f2 l2 w). reflexivity.
Qed.

(** What the await of [Promise.all] adds to the trace and what it
    leaves. *)
Lemma promise_all_spec (schedule : list Turn) :
  forall (l1 : Loop A) (l2 : Loop B) (w : World),
    quiet_loop l1 -> quiet_loop l2 ->
    ends_only_on_client_error l1 -> ends_only_on_client_error l2 ->
    let out := promise_all schedule f1 f2 l1 l2 w in
    (exists evs : list Event,
        trace (snd out) = trace w ++ evs
        /\ forallb is_retry_event evs = true)
    /\ quiet_loop (first_loop (fst out))
    /\ quiet_loop (second_loop (fst out))
    /\ ends_only_on_client_error (first_loop (fst out))
    /\ ends_only_on_client_error (second_loop (fst out))
    /\ settlement (fst out)
       = settle_all (first_loop (fst out)) (second_loop (fst out)).
Proof.
  induction schedule as [|t rest IH]; intros l1 l2 w Hq1 Hq2 He1 He2 out;
    unfold out; rewrite promise_all_unfold.
  - destruct (settle_all l1 l2) as [r|] eqn:Hs; cbn;
      (split; [exists []; rewrite app_nil_r; auto|]); auto 10.
  - destruct (settle_all l1 l2) as [r|] eqn:Hs.
    + cbn. split; [exists []; rewrite app_nil_r; auto|]. auto 10.
    + destruct t.
      * destruct (@tryFetch_step_events _ f1 l1 w quiet1 Hq1)
          as [(evs1 & Htr1 & Hev1) Hq1'].
        pose proof (@tryFetch_step_keeps_ends _ f1 l1 w He1) as He1'.
        destruct (IH (fst (tryFetch_step f1 l1 w)) l2
                    (snd (tryFetch_step f1 l1 w)) Hq1' Hq2 He1' He2)
          as ((evs & Htr & Hev) & Hrest).
        split; [|exact Hrest].
        exists (evs1 ++ evs). rewrite Htr, Htr1, app_assoc. split; [reflexivity|].
        rewrite forallb_app, Hev1, Hev. reflexivity.
      * destruct (@tryFetch_step_events _ f2 l2 w quiet2 Hq2)
          as [(evs2 & Htr2 & Hev2) Hq2'].
        pose proof (@tryFetch_step_keeps_ends _ f2 l2 w He2) as He2'.
        destruct (IH l1 (fst (tryFetch_step f2 l2 w))
                    (snd (tryFetch_step f2 l2 w)) Hq1 Hq2' He1 He2')
          as ((evs & Htr & Hev) & Hrest).
        split; [|exact Hrest].
        exists (evs2 ++ evs). rewrite Htr, Htr2, app_assoc. split; [reflexivity|].
        rewrite forallb_app, Hev2, Hev. reflexivity.
Qed.

Lemma background_events (schedule : list Turn) :
  forall (l1 : Loop A) (l2 : Loop B) (w : World),
    quiet_loop l1 -> quiet_loop l2 ->
    exists evs : list Event,
      trace (snd (background schedule f1 f2 l1 l2 w)) = trace w ++ evs
      /\ forallb is_retry_event evs = true.
Proof.
  induction schedule as [|t rest IH]; intros l1 l2 w Hq1 Hq2.
  - exists []. cbn. rewrite app_nil_r. auto.
  - destruct t; cbn [background]; unfold bind.
    + destruct (@tryFetch_step_events _ f1 l1 w quiet1 Hq1)
        as [(evs1 & Htr1 & Hev1) Hq1'].
      destruct (tryFetch_step f1 l1 w) as [l1' w1]. cbn [fst snd] in *.
      destruct (IH l1' l2 w1 Hq1' Hq2) as (evs & Htr & Hev).
      exists (evs1 ++ evs). rewrite Htr, Htr1, app_assoc. split; [reflexivity|].
      rewrite forallb_app, Hev1, Hev. reflexivity.
    + destruct (@tryFetch_step_events _ f2 l2 w quiet2 Hq2)
        as [(evs2 & Htr2 & Hev2) Hq2'].
      destruct (tryFetch_step f2 l2 w) as [l2' w2]. cbn [fst snd] in *.
      destruct (IH l1 l2' w2 Hq1 Hq2') as (evs & Htr & Hev).
      exists (evs2 ++ evs). rewrite Htr, Htr2, app_assoc. split; [reflexivity|].
      rewrite forallb_app, Hev2, Hev. reflexivity.
Qed.

End Both.

Lemma settle_all_rejected {A B} (l1 : Loop A) (l2 : Loop B) (e : JsError) :
  ends_only_on_client_error l1 -> ends_only_on_client_error l2 ->
  settle_all l1 l2 = Some (Throw e) ->
  isClientError e = true
  /\ (stage l1 = Settled (Throw e) \/ stage l2 = Settled (Throw e)).
Proof.
  intros H1 H2. unfold settle_all.
  destruct (stage l1) as [p1| |[a|e1]] eqn:E1;
    destruct (stage l2) as [p2| |[b|e2]] eqn:E2;
    intros H; try discriminate; injection H as <-; auto.
Qed.

Lemma settle_all_of_rejected {A B} (l1 : Loop A) (l2 : Loop B) (e : JsError) :
  stage l1 = Settled (Throw e) \/ stage l2 = Settled (Throw e) ->
  exists e' : JsError, settle_all l1 l2 = Some (Throw e').
Proof.
  unfold settle_all. intros [H|H]; rewrite H.
  - exists e. reflexivity.
  - destruct (stage l1) as [p1| |[a|e1]]; eauto.
Qed.

Lemma settle_all_fulfilled {A B} (l1 : Loop A) (l2 : Loop B) (a : A) (b : B) :
  settle_all l1 l2 = Some (Ok (a, b)) ->
  stage l1 = Settled (Ok a) /\ stage l2 = Settled (Ok b).
Proof.
  unfold settle_all.
  destruct (stage l1) as [p1| |[a1|e1]];
    destruct (stage l2) as [p2| |[b2|e2]];
    intros H; try discriminate; injection H as <- <-; auto.
Qed.

Lemma initial_requests_spec (auth : Auth) (schedule : list Turn) (w : World) :
  let out := initial_requests auth schedule w in
  (exists evs : list Event,
      trace (snd out) = trace w ++ evs
      /\ forallb is_retry_event evs = true)
  /\ quiet_loop (first_loop (fst out))
  /\ quiet_loop (second_loop (fst out))
  /\ ends_only_on_client_error (first_loop (fst out))
  /\ ends_only_on_client_error (second_loop (fst out))
  /\ settlement (fst out)
     = settle_all (first_loop (fst out)) (second_loop (fst out)).
Proof.
  unfold initial_requests, bind.
  destruct (@tryFetch_start_events _ (registerForEvents_func auth) w
              (registerForEvents_func_quiet auth))
    as ((e1 & He1 & Htr1) & Hq1 & Hc1).
  destruct (tryFetch_start (registerForEvents_func auth) w) as [l1 w1].
  destruct (@tryFetch_start_events _ (getServerSettings_func auth) w1
              (getServerSettings_func_quiet auth))
    as ((e2 & He2 & Htr2) & Hq2 & Hc2).
  destruct (tryFetch_start (getServerSettings_func auth) w1) as [l2 w2].
  cbn [fst snd] in *.
  destruct (@promise_all_spec _ _ _ _ (registerForEvents_func_quiet auth)
              (getServerSettings_func_quiet auth) schedule l1 l2 w2
              Hq1 Hq2 Hc1 Hc2)
    as ((evs & Htr & Hev) & Hrest).
  split; [|exact Hrest].
  exists ([e1; e2] ++ evs). rewrite Htr, Htr2, Htr1, <- !app_assoc.
  split; [reflexivity|]. cbn. rewrite He1, He2, Hev. reflexivity.
Qed.

Lemma doInitialFetch_unfold (schedule : list Turn) (w : World) :
  let w1 := snd (dispatch initialFetchStart w) in
  let auth := getAuth (store w1) in
  let out := initial_requests auth schedule w1 in
  doInitialFetch schedule w
  = match settlement (fst out) with
    | None => (Suspended, snd out)
    | Some (Throw e) =>
        (Returned None,
         snd (background (schedule_left (fst out)) (registerForEvents_func auth)
                (getServerSettings_func auth) (first_loop (fst out))
                (second_loop (fst out))
                (snd (dispatch LOGOUT (snd out)))))
    | Some (Ok (initData, serverSettings)) =>
        let serverVersion := {| raw_version := zulip_version serverSettings |} in
        let w3 :=
          snd (dispatch (START_EVENT_POLLING (queue_id initData)
                           (last_event_id initData))
                 (snd (dispatch initialFetchComplete
                         (snd (dispatch (REALM_INIT initData serverVersion)
                                 (snd out)))))) in
        if isAtLeast serverVersion MIN_RECENTPMS_SERVER_VERSION
        then (Returned None,
              snd (dispatch INIT_NOTIFICATIONS (snd (dispatch SEND_OUTBOX w3))))
        else (Returned (Some (fst (fetchPrivateMessages w3))),
              snd (dispatch INIT_NOTIFICATIONS
                     (snd (dispatch SEND_OUTBOX
                             (snd (fetchPrivateMessages w3))))))
    end.
Proof.
  intros w1 auth out. subst out auth w1.
  unfold doInitialFetch, bind, getState.
  cbn -[initial_requests background fetchPrivateMessages].
  destruct (initial_requests _ _ _) as [all w2]. cbn [fst snd].
  destruct (settlement all) as [[[initData serverSettings]|e]|].
  - destruct (isAtLeast _ _); cbn -[fetchPrivateMessages].
    + reflexivity.
    + destruct (fetchPrivateMessages _) as [p w4]. reflexivity.
  - cbn -[background]. destruct (background _ _ _ _ _ _). reflexivity.
  - reflexivity.
Qed.

Lemma doInitialFetch_rejected (schedule : list Turn) (w : World) (e : JsError) :
  let w1 := snd (dispatch initialFetchStart w) in
  let awaited := fst (initial_requests (getAuth (store w1)) schedule w1) in
  settlement awaited = Some (Throw e) ->
  fst (doInitialFetch schedule w) = Returned None
  /\ exists evs bg : list Event,
       forallb is_retry_event evs = true
       /\ forallb is_retry_event bg = true
       /\ events_since w (snd (doInitialFetch schedule w))
          = [Dispatched initialFetchStart] ++ evs ++ [Dispatched LOGOUT] ++ bg.
Proof.
  intros w1 awaited Hrej.
  pose proof (doInitialFetch_unfold schedule w) as E. cbn zeta in E.
  fold w1 in E. fold awaited in E. rewrite Hrej in E. rewrite E. cbn [fst snd].
  split; [reflexivity|].
  destruct (initial_requests_spec (getAuth (store w1)) schedule w1)
    as ((evs & Htr & Hev) & Hq1 & Hq2 & _).
  fold awaited in Hq1, Hq2.
  destruct (@background_events _ _ _ _
              (registerForEvents_func_quiet (getAuth (store w1)))
              (getServerSettings_func_quiet (getAuth (store w1)))
              (schedule_left awaited) (first_loop awaited) (second_loop awaited)
              (snd (dispatch LOGOUT
                      (snd (initial_requests (getAuth (store w1)) schedule w1))))
              Hq1 Hq2)
    as (bg & Hbg & Hevbg).
  exists evs, bg. split; [exact Hev|]. split; [exact Hevbg|].
  apply events_since_app. rewrite Hbg. cbn [dispatch snd trace].
  rewrite Htr. unfold w1. cbn [dispatch snd trace].
  rewrite <- !app_assoc. reflexivity.
Qed.

(** C2.  When the await of the two startup requests ends with one of the
    two retry loops having rethrown an error, whatever the other loop has
    reached, that error is a client error and [doInitialFetch] dispatches
    the logout and returns: the actions of the run are the initial fetch
    start and the logout, so neither the initial data and server version
    nor the completion of the initial fetch nor the start of event polling
    is ever dispatched; no messages request is made and no promise is left
    behind. *)
Theorem doInitialFetch_logs_out_on_client_error (schedule : list Turn)
    (w : World) (e : JsError) :
  let w1 := snd (dispatch initialFetchStart w) in
  let awaited := fst (initial_requests (getAuth (store w1)) schedule w1) in
  let finished := doInitialFetch schedule w in
  stage (first_loop awaited) = Settled (Throw e)
  \/ stage (second_loop awaited) = Settled (Throw e) ->
  isClientError e = true
  /\ fst finished = Returned None
  /\ signals (events_since w (snd finished)) = [initialFetchStart; LOGOUT]
  /\ (forall a : Action,
        In a (signals (events_since w (snd finished))) ->
        a <> INITIAL_FETCH_COMPLETE
        /\ (forall (data : InitialData) (version : ZulipVersion),
              a <> REALM_INIT data version)
        /\ (forall (queueId : string) (lastEventId : Z),
              a <> START_EVENT_POLLING queueId lastEventId))
  /\ getMessages_calls (events_since w (snd finished)) = []
  /\ run_doInitialFetch schedule w = (Some None, snd finished).
Proof.
  intros w1 awaited finished Hloop.
  destruct (initial_requests_spec (getAuth (store w1)) schedule w1)
    as (_ & _ & _ & He1 & He2 & Hset).
  fold awaited in He1, He2, Hset.
  assert (Hclient : isClientError e = true).
  { destruct Hloop as [H|H]; [apply He1|apply He2]; exact H. }
  destruct (settle_all_of_rejected _ _ Hloop) as [e' Hrej].
  rewrite <- Hset in Hrej.
  destruct (@doInitialFetch_rejected schedule w e' Hrej)
    as (Hret & evs & bg & Hev & Hbg & Hevents).
  fold finished in Hret, Hevents.
  destruct (retry_events_silent _ Hev) as [Hs1 Hc1].
  destruct (retry_events_silent _ Hbg) as [Hs2 Hc2].
  assert (Hsig : signals (events_since w (snd finished))
                 = [initialFetchStart; LOGOUT]).
  { rewrite Hevents, !signals_app, Hs1, Hs2. reflexivity. }
  split; [exact Hclient|]. split; [exact Hret|]. split; [exact Hsig|].
  split; [|split].
  - intros a Ha. rewrite Hsig in Ha.
    destruct Ha as [<-|[<-|[]]]; repeat split; intros; discriminate.
  - rewrite Hevents, !getMessages_calls_app, Hc1, Hc2. reflexivity.
  - unfold run_doInitialFetch, bind. fold finished.
    destruct finished as [r w']. cbn [fst snd] in *. rewrite Hret. reflexivity.
Qed.

(** The request of [fetchPrivateMessages] in a given store. *)
Lemma fetchPrivateMessages_prefix (w : World) :
  snd (fetchPrivateMessages w)
  = {| store := store w;
       trace := trace w ++
         [GetMessagesCall (getAuth (store w))
            {| gm_narrow := apiNarrowOfNarrow ALL_PRIVATE_NARROW
                              (getAllUsersById (store w));
               gm_anchor := LAST_MESSAGE_ANCHOR;
               gm_numBefore := 100 # 1;
               gm_numAfter := 0;
               gm_useFirstUnread := None |}] |}.
Proof. reflexivity. Qed.

(** The promise of [fetchPrivateMessages], resumed in any world, adds at
    most one action and no request. *)
Lemma fetchPrivateMessages_promise (w0 w : World) :
  let params :=
    {| gm_narrow := apiNarrowOfNarrow ALL_PRIVATE_NARROW (getAllUsersById (store w0));
       gm_anchor := LAST_MESSAGE_ANCHOR;
       gm_numBefore := 100 # 1;
       gm_numAfter := 0;
       gm_useFirstUnread := None |} in
  let settled := fst (fetchPrivateMessages w0) w in
  exists tail : list Event,
    trace (snd settled) = trace w ++ tail
    /\ getMessages_calls tail = []
    /\ match api_getMessages (getAuth (store w0)) params with
       | Ok response => fst settled = Ok tt /\ exists a : Action, tail = [Dispatched a]
       | Throw e => fst settled = Throw e /\ tail = []
       end.
Proof.
  cbn. destruct (api_getMessages _ _) as [response|e]; cbn.
  - eexists. split; [reflexivity|]. split; [reflexivity|].
    split; [reflexivity|]. eexists. reflexivity.
  - exists []. rewrite app_nil_r. auto.
Qed.

(** The events of a run of [doInitialFetch] whose two requests succeed. *)
Lemma run_doInitialFetch_fulfilled (schedule : list Turn) (w : World)
    (initData : InitialData) (serverSettings : ApiResponseServerSettings) :
  let w1 := snd (dispatch initialFetchStart w) in
  let awaited := fst (initial_requests (getAuth (store w1)) schedule w1) in
  let serverVersion := {| raw_version := zulip_version serverSettings |} in
  let finished := run_doInitialFetch schedule w in
  settlement awaited = Some (Ok (initData, serverSettings)) ->
  exists evs : list Event,
    forallb is_retry_event evs = true
    /\ if isAtLeast serverVersion MIN_RECENTPMS_SERVER_VERSION
       then fst finished = Some None
            /\ events_since w (snd finished)
               = [Dispatched initialFetchStart] ++ evs ++
                 [Dispatched (REALM_INIT initData serverVersion);
                  Dispatched initialFetchComplete;
                  Dispatched (START_EVENT_POLLING (queue_id initData)
                                (last_event_id initData));
                  Dispatched SEND_OUTBOX;
                  Dispatched INIT_NOTIFICATIONS]
       else exists (s3 : GlobalState) (tail : list Event),
            let params :=
              {| gm_narrow := apiNarrowOfNarrow ALL_PRIVATE_NARROW
                                (getAllUsersById s3);
                 gm_anchor := LAST_MESSAGE_ANCHOR;
                 gm_numBefore := 100 # 1;
                 gm_numAfter := 0;
                 gm_useFirstUnread := None |} in
            events_since w (snd finished)
            = [Dispatched initialFetchStart] ++ evs ++
              [Dispatched (REALM_INIT initData serverVersion);
               Dispatched initialFetchComplete;
               Dispatched (START_EVENT_POLLING (queue_id initData)
                             (last_event_id initData));
               GetMessagesCall (getAuth s3) params;
               Dispatched SEND_OUTBOX;
               Dispatched INIT_NOTIFICATIONS] ++ tail
            /\ getMessages_calls tail = []
            /\ match api_getMessages (getAuth s3) params with
               | Ok response =>
                   fst finished = Some (Some (Ok tt))
                   /\ exists a : Action, tail = [Dispatched a]
               | Throw e =>
                   fst finished = Some (Some (Throw e)) /\ tail = []
               end.
Proof.
  intros w1 awaited serverVersion finished Hok.
  pose proof (doInitialFetch_unfold schedule w) as E. cbn zeta in E.
  fold w1 in E. fold awaited in E. rewrite Hok in E. fold serverVersion in E.
  destruct (initial_requests_spec (getAuth (store w1)) schedule w1)
    as ((evs & Htr & Hev) & _).
  exists evs. split; [exact Hev|].
  unfold finished, run_doInitialFetch, bind. rewrite E.
  destruct (isAtLeast serverVersion MIN_RECENTPMS_SERVER_VERSION).
  - cbn [settle_floating ret fst snd]. split; [reflexivity|].
    apply events_since_app. cbn [dispatch snd trace]. rewrite Htr.
    unfold w1. cbn [dispatch snd trace]. rewrite <- !app_assoc. reflexivity.
  - set (w3 := snd (dispatch (START_EVENT_POLLING (queue_id initData)
                                (last_event_id initData)) _)).
    set (w5 := snd (dispatch INIT_NOTIFICATIONS _)).
    destruct (fetchPrivateMessages_promise w3 (wake w5))
      as (tail & Htail & Hcalls & Hres).
    cbn zeta in Hres.
    exists (store w3), tail. cbn zeta.
    unfold settle_floating, resume.
    destruct (fst (fetchPrivateMessages w3) (wake w5)) as [r w6] eqn:Hp.
    cbn [ret fst snd] in *. split; [|split; [exact Hcalls|]].
    + apply events_since_app. rewrite Htail. unfold w5.
      cbn [wake dispatch snd trace]. rewrite fetchPrivateMessages_prefix.
      cbn [trace]. unfold w3. cbn [dispatch snd trace]. rewrite Htr.
      unfold w1. cbn [dispatch snd trace]. rewrite <- !app_assoc. reflexivity.
    + destruct (api_getMessages _ _) as [response|e'];
        destruct Hres as [-> Ht]; split; auto.
Qed.

(** C6.  In a run of [doInitialFetch] whose two startup requests succeed:
    if the server version is not at least
    [MIN_RECENTPMS_SERVER_VERSION], exactly one messages request is made,
    after the completion of the initial fetch has been dispatched, for
    [ALL_PRIVATE_NARROW], anchored at [LAST_MESSAGE_ANCHOR], with
    [numBefore = 100] and [numAfter = 0]; if the version is at least that
    one, no messages request is made. *)
Theorem doInitialFetch_legacy_fetch_by_version (schedule : list Turn)
    (w : World) (initData : InitialData)
    (serverSettings : ApiResponseServerSettings) :
  let w1 := snd (dispatch initialFetchStart w) in
  let awaited := fst (initial_requests (getAuth (store w1)) schedule w1) in
  let serverVersion := {| raw_version := zulip_version serverSettings |} in
  let evs := events_since w (snd (run_doInitialFetch schedule w)) in
  settlement awaited = Some (Ok (initData, serverSettings)) ->
  (isAtLeast serverVersion MIN_RECENTPMS_SERVER_VERSION = false ->
     exists (auth' : Auth) (users' : UsersById) (before after : list Event),
       let params :=
         {| gm_narrow := apiNarrowOfNarrow ALL_PRIVATE_NARROW users';
            gm_anchor := LAST_MESSAGE_ANCHOR;
            gm_numBefore := 100 # 1;
            gm_numAfter := 0;
            gm_useFirstUnread := None |} in
       evs = before ++ [Dispatched initialFetchComplete] ++
             [Dispatched (START_EVENT_POLLING (queue_id initData)
                            (last_event_id initData))] ++
             [GetMessagesCall auth' params] ++ after
       /\ getMessages_calls before = []
       /\ getMessages_calls after = []
       /\ getMessages_calls evs = [(auth', params)])
  /\ (isAtLeast serverVersion MIN_RECENTPMS_SERVER_VERSION = true ->
        getMessages_calls evs = []
        /\ In initialFetchComplete (signals evs)).
Proof.
  intros w1 awaited serverVersion evs Hok.
  destruct (@run_doInitialFetch_fulfilled schedule w initData serverSettings Hok)
    as (retries & Hretries & Hrun).
  fold serverVersion in Hrun.
  destruct (retry_events_silent _ Hretries) as [Hsig Hcalls].
  split; intros Hver; rewrite Hver in Hrun.
  - destruct Hrun as (s3 & tail & Hevs & Htail & _). cbn zeta in Hevs.
    fold evs in Hevs.
    exists (getAuth s3), (getAllUsersById s3),
      ([Dispatched initialFetchStart] ++ retries ++
       [Dispatched (REALM_INIT initData serverVersion)]),
      ([Dispatched SEND_OUTBOX; Dispatched INIT_NOTIFICATIONS] ++ tail).
    cbn zeta. split; [|split; [|split]].
    + rewrite Hevs. cbn [app]. rewrite <- !app_assoc. reflexivity.
    + rewrite !getMessages_calls_app, Hcalls. reflexivity.
    + rewrite getMessages_calls_app, Htail. reflexivity.
    + rewrite Hevs, !getMessages_calls_app, Hcalls, Htail. reflexivity.
  - destruct Hrun as [_ Hevs]. fold evs in Hevs. rewrite Hevs. split.
    + rewrite !getMessages_calls_app, Hcalls. reflexivity.
    + rewrite !signals_app, Hsig. cbn. auto.
Qed.

(** *** Failures *)

Lemma newer_guard_dec (state : GlobalState) (narrow : Narrow) :
  newer_guard state narrow \/ ~ newer_guard state narrow.
Proof.
  unfold newer_guard.
  destruct (session_needsInitialFetch state);
    destruct (f_newer (getFetchingForNarrow state narrow));
    destruct (cu_newer (getCaughtUpForNarrow state narrow));
    destruct (getLastMessageId state narrow);
    try (right; intros (? & ? & ? & ?); congruence).
  left. repeat split; congruence.
Qed.

(** A failed request of [fetchMessages] is dispatched as an error action
    and rethrown. *)
Lemma fetchMessages_failure (fetchArgs : FetchArgs) (w : World) (auth : Auth)
    (params : GetMessagesParams) (e : JsError) :
  let settled := run_async (fetchMessages fetchArgs) w in
  In (auth, params) (getMessages_calls (events_since w (snd settled))) ->
  api_getMessages auth params = Throw e ->
  fst settled = Throw e
  /\ In (messageFetchError (fa_narrow fetchArgs) e)
        (signals (events_since w (snd settled))).
Proof.
  intros settled Hin Hfail.
  destruct (fetchMessages_calls fetchArgs w) as [Hev _].
  fold settled in Hev. rewrite Hev in Hin. cbn in Hin.
  destruct Hin as [Heq|[]]. injection Heq as <- <-.
  pose proof (fetchMessages_settles fetchArgs w) as Hs. cbn zeta in Hs.
  fold settled in Hs. rewrite Hfail in Hs. rewrite Hs. cbn [fst snd].
  split; [reflexivity|].
  erewrite events_since_app by (cbn [trace]; reflexivity).
  cbn. right. left. reflexivity.
Qed.

Lemma fetchOlder_failure (narrow : Narrow) (w : World) (auth : Auth)
    (params : GetMessagesParams) (e : JsError) :
  let w' := run_detached (fetchOlder narrow) w in
  In (auth, params) (getMessages_calls (events_since w w')) ->
  api_getMessages auth params = Throw e ->
  In (messageFetchError narrow e) (signals (events_since w w')).
Proof.
  intros w' Hin Hfail.
  destruct (older_guard_dec (store w) narrow) as [Hg|Hg].
  - destruct (getFirstMessageId (store w) narrow) as [firstId|] eqn:Hid;
      [|destruct Hg as (_ & _ & _ & Hne); congruence].
    unfold w' in *. rewrite (@fetchOlder_fires narrow w firstId Hg Hid) in *.
    exact (proj2 (@fetchMessages_failure _ w auth params e Hin Hfail)).
  - unfold w', run_detached in Hin. rewrite (@fetchOlder_idle narrow w Hg) in Hin.
    rewrite events_since_same in Hin. destruct Hin.
Qed.

Lemma fetchNewer_failure (narrow : Narrow) (w : World) (auth : Auth)
    (params : GetMessagesParams) (e : JsError) :
  let w' := run_detached (fetchNewer narrow) w in
  In (auth, params) (getMessages_calls (events_since w w')) ->
  api_getMessages auth params = Throw e ->
  In (messageFetchError narrow e) (signals (events_since w w')).
Proof.
  intros w' Hin Hfail.
  destruct (newer_guard_dec (store w) narrow) as [Hg|Hg].
  - destruct (getLastMessageId (store w) narrow) as [lastId|] eqn:Hid;
      [|destruct Hg as (_ & _ & _ & Hne); congruence].
    unfold w' in *. rewrite (@fetchNewer_fires narrow w lastId Hg Hid) in *.
    exact (proj2 (@fetchMessages_failure _ w auth params e Hin Hfail)).
  - unfold w', run_detached in Hin. rewrite (@fetchNewer_idle narrow w Hg) in Hin.
    rewrite events_since_same in Hin. destruct Hin.
Qed.

Lemma fetchMessagesInNarrow_failure (narrow : Narrow) (anchor_arg : option Z)
    (w : World) (auth : Auth) (params : GetMessagesParams) (e : JsError) :
  let settled := run_async (fetchMessagesInNarrow narrow anchor_arg) w in
  In (auth, params) (getMessages_calls (events_since w (snd settled))) ->
  api_getMessages auth params = Throw e ->
  fst settled = Throw e
  /\ In (messageFetchError narrow e) (signals (events_since w (snd settled))).
Proof.
  intros settled Hin Hfail. unfold settled in *.
  destruct (isFetchNeededAtAnchor (store w) narrow (anchor_or_default anchor_arg))
    eqn:Hneed.
  - rewrite (@fetchMessagesInNarrow_fires narrow anchor_arg w Hneed) in *.
    pose proof (@fetchMessages_failure
                  (centering_args narrow (anchor_or_default anchor_arg))
                  w auth params e) as H.
    cbn zeta in H.
    destruct (run_async (fetchMessages
                (centering_args narrow (anchor_or_default anchor_arg))) w)
      as [[msgs|e'] w'']; cbn [fst snd] in *;
      destruct (H Hin Hfail) as [H1 H2]; [discriminate|].
    injection H1 as ->. split; [reflexivity|exact H2].
  - rewrite fetchMessagesInNarrow_calls in Hin. cbn zeta in Hin.
    rewrite Hneed in Hin. destruct Hin.
Qed.

Lemma fetchPrivateMessages_failure (w : World) (auth : Auth)
    (params : GetMessagesParams) (e : JsError) :
  let settled := run_async fetchPrivateMessages w in
  In (auth, params) (getMessages_calls (events_since w (snd settled))) ->
  api_getMessages auth params = Throw e ->
  fst settled = Throw e.
Proof.
  intros settled Hin Hfail.
  destruct (fetchPrivateMessages_settles w) as [_ Hrun]. cbn zeta in Hrun.
  fold settled in Hrun.
  destruct (api_getMessages (getAuth (store w)) _) as [response|e'] eqn:Hapi
    in Hrun; rewrite Hrun in Hin |- *; cbn [fst snd] in *;
    erewrite events_since_app in Hin by (cbn [trace]; reflexivity);
    cbn in Hin; destruct Hin as [Heq|[]]; injection Heq as <- <-;
    congruence.
Qed.

(** A failed call in the loop of [tryFetch] is rethrown if the error is a
    client error; otherwise the loop waits and then calls [func] again. *)
Lemma tryFetch_failure {T} (func : AsyncFunction T) (l : Loop T)
    (p : Promise T) (w : World) (e : JsError) :
  stage l = AwaitingFunc p ->
  fst (resume p w) = Throw e ->
  let l1 := fst (tryFetch_step func l w) in
  (isClientError e = true /\ stage l1 = Settled (Throw e))
  \/ (isClientError e = false
      /\ stage l1 = AwaitingBackoff
      /\ waits (backoffMachine l1) = S (waits (backoffMachine l))
      /\ forall w' : World,
           let l2 := fst (tryFetch_step func l1 w') in
           calls l2 = S (calls l)
           /\ exists p' : Promise T, stage l2 = AwaitingFunc p').
Proof.
  intros Hs Hp l1.
  assert (E : l1 = if isClientError e
                   then {| backoffMachine := backoffMachine l; calls := calls l;
                           stage := Settled (Throw e) |}
                   else {| backoffMachine :=
                             {| waits := S (waits (backoffMachine l)) |};
                           calls := calls l;
                           stage := AwaitingBackoff |}).
  { unfold l1, tryFetch_step. rewrite Hs.
    destruct (resume p w) as [r w1]. cbn [fst] in Hp. subst r.
    destruct (isClientError e); reflexivity. }
  clearbody l1. subst l1.
  destruct (isClientError e) eqn:He; [left; auto|right].
  split; [reflexivity|]. split; [reflexivity|]. split; [reflexivity|].
  intros w'. unfold tryFetch_step, bind. cbn [stage calls backoffMachine].
  destruct (func (calls l) (wake w')) as [p' w2]. cbn.
  split; [reflexivity|]. exists p'. reflexivity.
Qed.

Lemma doInitialFetch_pending (schedule : list Turn) (w : World) :
  let w1 := snd (dispatch initialFetchStart w) in
  let awaited := fst (initial_requests (getAuth (store w1)) schedule w1) in
  settlement awaited = None ->
  run_doInitialFetch schedule w = (None, snd (doInitialFetch schedule w))
  /\ exists evs : list Event,
       forallb is_retry_event evs = true
       /\ events_since w (snd (doInitialFetch schedule w))
          = [Dispatched initialFetchStart] ++ evs.
Proof.
  intros w1 awaited Hnone.
  pose proof (doInitialFetch_unfold schedule w) as E. cbn zeta in E.
  fold w1 in E. fold awaited in E. rewrite Hnone in E.
  unfold run_doInitialFetch, bind. rewrite E. cbn [fst snd].
  split; [reflexivity|].
  destruct (initial_requests_spec (getAuth (store w1)) schedule w1)
    as ((evs & Htr & Hev) & _).
  exists evs. split; [exact Hev|].
  apply events_since_app. rewrite Htr. unfold w1. cbn [dispatch snd trace].
  rewrite <- !app_assoc. reflexivity.
Qed.

(** In a run of [doInitialFetch], a failed messages request rejects the
    promise that [fetchPrivateMessages] returned to it, and nothing else
    comes of it: [doInitialFetch] has returned, the request is the only
    messages request of the run, and the actions of the run are those of
    a successful initial fetch. *)
Lemma doInitialFetch_legacy_failure (schedule : list Turn) (w : World)
    (auth : Auth) (params : GetMessagesParams) (e : JsError) :
  let finished := run_doInitialFetch schedule w in
  let evs := events_since w (snd finished) in
  In (auth, params) (getMessages_calls evs) ->
  api_getMessages auth params = Throw e ->
  fst finished = Some (Some (Throw e))
  /\ (exists floating : Promise unit,
        fst (doInitialFetch schedule w) = Returned (Some floating))
  /\ getMessages_calls evs = [(auth, params)]
  /\ exists (initData : InitialData) (serverVersion : ZulipVersion),
       signals evs
       = [initialFetchStart;
          REALM_INIT initData serverVersion;
          initialFetchComplete;
          START_EVENT_POLLING (queue_id initData) (last_event_id initData);
          SEND_OUTBOX;
          INIT_NOTIFICATIONS].
Proof.
  intros finished evs Hin Hfail. subst evs.
  set (w1 := snd (dispatch initialFetchStart w)).
  set (awaited := fst (initial_requests (getAuth (store w1)) schedule w1)).
  destruct (settlement awaited) as [[[initData serverSettings]|e']|] eqn:Hset.
  - pose proof (doInitialFetch_unfold schedule w) as E. cbn zeta in E.
    fold w1 in E. fold awaited in E. rewrite Hset in E.
    destruct (@run_doInitialFetch_fulfilled schedule w initData serverSettings Hset)
      as (retries & Hretries & Hrun).
    fold finished in Hrun.
    destruct (retry_events_silent _ Hretries) as [Hsig Hcalls].
    destruct (isAtLeast {| raw_version := zulip_version serverSettings |}
                MIN_RECENTPMS_SERVER_VERSION) eqn:Hver.
    + destruct Hrun as [_ Hevs]. rewrite Hevs in Hin.
      rewrite !getMessages_calls_app, Hcalls in Hin. destruct Hin.
    + destruct Hrun as (s3 & tail & Hevs & Htail & Hres). cbn zeta in *.
      rewrite Hevs in Hin.
      rewrite !getMessages_calls_app, Hcalls, Htail in Hin. cbn in Hin.
      destruct Hin as [Heq|[]]. injection Heq as <- <-.
      rewrite Hfail in Hres. destruct Hres as [Hret ->].
      split; [exact Hret|]. split; [|split].
      * rewrite E. eexists. reflexivity.
      * rewrite Hevs, !getMessages_calls_app, Hcalls. reflexivity.
      * exists initData, {| raw_version := zulip_version serverSettings |}.
        rewrite Hevs, !signals_app, Hsig. reflexivity.
  - destruct (@doInitialFetch_rejected schedule w e' Hset)
      as (Hret & evs & bg & Hev & Hbg & Hevents).
    exfalso.
    assert (E : snd finished = snd (doInitialFetch schedule w)).
    { unfold finished, run_doInitialFetch, bind.
      destruct (doInitialFetch schedule w) as [r w']. cbn [fst snd] in *.
      rewrite Hret. reflexivity. }
    rewrite E, Hevents in Hin.
    destruct (retry_events_silent _ Hev) as [_ Hc1].
    destruct (retry_events_silent _ Hbg) as [_ Hc2].
    rewrite !getMessages_calls_app, Hc1, Hc2 in Hin. destruct Hin.
  - destruct (@doInitialFetch_pending schedule w Hset)
      as (Hrun & evs & Hev & Hevents).
    exfalso. unfold finished in Hin. rewrite Hrun in Hin. cbn [snd] in Hin.
    rewrite Hevents in Hin.
    destruct (retry_events_silent _ Hev) as [_ Hc1].
    rewrite !getMessages_calls_app, Hc1 in Hin. destruct Hin.
Qed.

(** C8, amended.  What becomes of a failed request.  A failed request of
    [fetchMessages] is dispatched as an error action and rethrown, also
    when [fetchOlder], [fetchNewer] or [fetchMessagesInNarrow] made it
    ([fetchMessagesInNarrow] rethrows it too); when these make no request
    there is nothing to fail.  [fetchPrivateMessages] rethrows a failed
    request to its caller and dispatches nothing.  In the loop of
    [tryFetch] a failed call is rethrown when the error is a client error
    and is otherwise followed by a wait and a new call.  In
    [doInitialFetch] an error rethrown by either retry loop leads to the
    logout action.  A failed messages request of [doInitialFetch] is the
    one exception: it rejects the promise [fetchPrivateMessages] handed to
    [doInitialFetch], which does not await it and has returned; the
    request is not sent again, and the actions of the run are those of a
    successful initial fetch, with neither an error action nor the logout
    action among them. *)
Theorem failed_request_is_retried_rethrown_or_signalled :
  (forall (fetchArgs : FetchArgs) (w : World) (auth : Auth)
          (params : GetMessagesParams) (e : JsError),
      let settled := run_async (fetchMessages fetchArgs) w in
      In (auth, params) (getMessages_calls (events_since w (snd settled))) ->
      api_getMessages auth params = Throw e ->
      fst settled = Throw e
      /\ In (messageFetchError (fa_narrow fetchArgs) e)
            (signals (events_since w (snd settled))))
  /\ (forall (narrow : Narrow) (w : World) (auth : Auth)
             (params : GetMessagesParams) (e : JsError),
      let w' := run_detached (fetchOlder narrow) w in
      In (auth, params) (getMessages_calls (events_since w w')) ->
      api_getMessages auth params = Throw e ->
      In (messageFetchError narrow e) (signals (events_since w w')))
  /\ (forall (narrow : Narrow) (w : World) (auth : Auth)
             (params : GetMessagesParams) (e : JsError),
      let w' := run_detached (fetchNewer narrow) w in
      In (auth, params) (getMessages_calls (events_since w w')) ->
      api_getMessages auth params = Throw e ->
      In (messageFetchError narrow e) (signals (events_since w w')))
  /\ (forall (narrow : Narrow) (anchor_arg : option Z) (w : World) (auth : Auth)
             (params : GetMessagesParams) (e : JsError),
      let settled := run_async (fetchMessagesInNarrow narrow anchor_arg) w in
      In (auth, params) (getMessages_calls (events_since w (snd settled))) ->
      api_getMessages auth params = Throw e ->
      fst settled = Throw e
      /\ In (messageFetchError narrow e) (signals (events_since w (snd settled))))
  /\ (forall (w : World) (auth : Auth) (params : GetMessagesParams) (e : JsError),
      let settled := run_async fetchPrivateMessages w in
      In (auth, params) (getMessages_calls (events_since w (snd settled))) ->
      api_getMessages auth params = Throw e ->
      fst settled = Throw e)
  /\ (forall (T : Type) (func : AsyncFunction T) (l : Loop T) (p : Promise T)
             (w : World) (e : JsError),
      stage l = AwaitingFunc p ->
      fst (resume p w) = Throw e ->
      let l1 := fst (tryFetch_step func l w) in
      (isClientError e = true /\ stage l1 = Settled (Throw e))
      \/ (isClientError e = false
          /\ stage l1 = AwaitingBackoff
          /\ waits (backoffMachine l1) = S (waits (backoffMachine l))
          /\ forall w' : World,
               let l2 := fst (tryFetch_step func l1 w') in
               calls l2 = S (calls l)
               /\ exists p' : Promise T, stage l2 = AwaitingFunc p'))
  /\ (forall (schedule : list Turn) (w : World) (e : JsError),
      let w1 := snd (dispatch initialFetchStart w) in
      let awaited := fst (initial_requests (getAuth (store w1)) schedule w1) in
      stage (first_loop awaited) = Settled (Throw e)
      \/ stage (second_loop awaited) = Settled (Throw e) ->
      In LOGOUT (signals (events_since w (snd (doInitialFetch schedule w)))))
  /\ (forall (schedule : list Turn) (w : World) (auth : Auth)
             (params : GetMessagesParams) (e : JsError),
      let finished := run_doInitialFetch schedule w in
      let evs := events_since w (snd finished) in
      In (auth, params) (getMessages_calls evs) ->
      api_getMessages auth params = Throw e ->
      fst finished = Some (Some (Throw e))
      /\ (exists floating : Promise unit,
            fst (doInitialFetch schedule w) = Returned (Some floating))
      /\ getMessages_calls evs = [(auth, params)]
      /\ (exists (initData : InitialData) (serverVersion : ZulipVersion),
            signals evs
            = [initialFetchStart;
               REALM_INIT initData serverVersion;
               initialFetchComplete;
               START_EVENT_POLLING (queue_id initData) (last_event_id initData);
               SEND_OUTBOX;
               INIT_NOTIFICATIONS])
      /\ ~ In LOGOUT (signals evs)
      /\ forall (narrow : Narrow) (e' : JsError),
           ~ In (messageFetchError narrow e') (signals evs)).
Proof.
  split; [exact fetchMessages_failure|].
  split; [exact fetchOlder_failure|].
  split; [exact fetchNewer_failure|].
  split; [exact fetchMessagesInNarrow_failure|].
  split; [exact fetchPrivateMessages_failure|].
  split; [intros T func l p w e; apply tryFetch_failure|].
  split.
  2:{ intros schedule w auth params e finished evs Hin Hfail.
      destruct (@doInitialFetch_legacy_failure schedule w auth params e Hin Hfail)
        as (Hret & Hfloat & Hcalls & initData & serverVersion & Hsig).
      fold finished in Hret, Hcalls, Hsig. fold evs in Hcalls, Hsig.
      split; [exact Hret|]. split; [exact Hfloat|]. split; [exact Hcalls|].
      split; [exists initData, serverVersion; exact Hsig|].
      rewrite Hsig. split.
      - cbn. intros [H|[H|[H|[H|[H|[H|[]]]]]]]; discriminate H.
      - intros narrow e'. cbn.
        intros [H|[H|[H|[H|[H|[H|[]]]]]]]; discriminate H. }
  intros schedule w e w1 awaited Hloop.
  destruct (initial_requests_spec (getAuth (store w1)) schedule w1)
    as (_ & _ & _ & _ & _ & Hset).
  fold awaited in Hset.
  destruct (settle_all_of_rejected _ _ Hloop) as [e' Hrej].
  rewrite <- Hset in Hrej.
  destruct (@doInitialFetch_rejected schedule w e' Hrej)
    as (_ & evs & bg & Hev & _ & Hevents).
  rewrite Hevents, !signals_app.
  destruct (retry_events_silent _ Hev) as [-> _]. cbn. auto.
Qed.

(** What [doInitialFetch] itself does about a failed request of
    [fetchPrivateMessages]: nothing.  It has not awaited the promise, so it
    has returned; the actions of the run are those of a successful initial
    fetch, without error action or logout, and the rejection stays with the
    promise left behind. *)
Lemma doInitialFetch_does_not_await_legacy_fetch (schedule : list Turn)
    (w : World) (initData : InitialData)
    (serverSettings : ApiResponseServerSettings) (e : JsError) :
  let w1 := snd (dispatch initialFetchStart w) in
  let awaited := fst (initial_requests (getAuth (store w1)) schedule w1) in
  let serverVersion := {| raw_version := zulip_version serverSettings |} in
  let finished := run_doInitialFetch schedule w in
  settlement awaited = Some (Ok (initData, serverSettings)) ->
  isAtLeast serverVersion MIN_RECENTPMS_SERVER_VERSION = false ->
  (forall (auth : Auth) (params : GetMessagesParams),
      api_getMessages auth params = Throw e) ->
  fst finished = Some (Some (Throw e))
  /\ signals (events_since w (snd finished))
     = [initialFetchStart;
        REALM_INIT initData serverVersion;
        initialFetchComplete;
        START_EVENT_POLLING (queue_id initData) (last_event_id initData);
        SEND_OUTBOX;
        INIT_NOTIFICATIONS].
Proof.
  intros w1 awaited serverVersion finished Hok Hver Hfail.
  destruct (@run_doInitialFetch_fulfilled schedule w initData serverSettings Hok)
    as (retries & Hretries & Hrun).
  fold serverVersion in Hrun. fold finished in Hrun. rewrite Hver in Hrun.
  destruct Hrun as (s3 & tail & Hevs & _ & Hres). cbn zeta in Hevs, Hres.
  rewrite Hfail in Hres. destruct Hres as [Hret ->].
  split; [exact Hret|].
  rewrite Hevs, !signals_app.
  destruct (retry_events_silent _ Hretries) as [-> _]. reflexivity.
Qed.

(** ** Further facts *)

(** *** Fetching newer messages *)


(** *** The shape of a retry *)

(** What holds of a retry loop around a function that only adds [c] to the
    trace, between the world [w0] it was started in and the world [w] it
    has reached. *)
Lemma tryFetch_step_shape {T} (c : Event) (func : AsyncFunction T)
    (w0 : World) (l : Loop T) (w : World) :
  calls_only c func ->
  quiet_loop l ->
  (1 <= calls l)%nat ->
  waits (backoffMachine l) = (calls l - 1 + List.length (pending_wait l))%nat ->
  trace w = trace w0 ++ retry_trace c (calls l) ++ pending_wait l ->
  let l' := fst (tryFetch_step func l w) in
  let w' := snd (tryFetch_step func l w) in
  quiet_loop l'
  /\ (1 <= calls l')%nat
  /\ waits (backoffMachine l') = (calls l' - 1 + List.length (pending_wait l'))%nat
  /\ trace w' = trace w0 ++ retry_trace c (calls l') ++ pending_wait l'.
Proof.
  intros Hf Hq Hc Hw Htr. unfold tryFetch_step, resume, pending_wait in *.
  destruct (stage l) as [p| |r] eqn:Hs.
  - pose proof (Hq p Hs (wake w)) as Hp.
    destruct (p (wake w)) as [[v|e] w1]; cbn [snd wake trace] in Hp.
    + cbn. repeat split; try assumption.
      * intros p' H. discriminate.
      * rewrite Hp. exact Htr.
    + destruct (isClientError e); cbn.
      * repeat split; try assumption.
        -- intros p' H. discriminate.
        -- rewrite Hp. exact Htr.
      * repeat split; try assumption.
        -- intros p' H. discriminate.
        -- cbn in Hw. lia.
        -- rewrite Hp, Htr, app_nil_r, <- app_assoc. reflexivity.
  - destruct (Hf (calls l) (wake w)) as [Hcall Hpromise].
    unfold bind. destruct (func (calls l) (wake w)) as [p w1]. cbn in *.
    repeat split.
    + intros p' H. injection H as <-. exact Hpromise.
    + lia.
    + lia.
    + rewrite Hcall, Htr.
      destruct (calls l) as [|n] eqn:Hn; [lia|].
      rewrite app_nil_r, <- !app_assoc. reflexivity.
  - cbn. rewrite Hs. repeat split; assumption.
Qed.

Lemma tryFetch_run_shape {T} (c : Event) (func : AsyncFunction T)
    (w0 : World) (fuel : nat) :
  calls_only c func ->
  forall (l : Loop T) (w : World),
    quiet_loop l ->
    (1 <= calls l)%nat ->
    waits (backoffMachine l) = (calls l - 1 + List.length (pending_wait l))%nat ->
    trace w = trace w0 ++ retry_trace c (calls l) ++ pending_wait l ->
    let l' := fst (tryFetch_run fuel func l w) in
    let w' := snd (tryFetch_run fuel func l w) in
    (1 <= calls l')%nat
    /\ waits (backoffMachine l') = (calls l' - 1 + List.length (pending_wait l'))%nat
    /\ trace w' = trace w0 ++ retry_trace c (calls l') ++ pending_wait l'.
Proof.
  intros Hf. induction fuel as [|fuel IH]; intros l w Hq Hc Hw Htr.
  - cbn. auto.
  - cbn zeta. rewrite tryFetch_run_S.
    destruct (@tryFetch_step_shape _ c func w0 l w Hf Hq Hc Hw Htr)
      as (Hq' & Hc' & Hw' & Htr').
    exact (IH _ _ Hq' Hc' Hw' Htr').
Qed.

(** X2.  A retry loop around a function whose calls send the one request
    [c]: however long it is followed, what it has added to the trace is the
    request, then a wait and the request again for each further call, and
    the wait it is suspended at if it is at one.  So two requests are
    always a wait apart, no two waits follow each other, and the number of
    waits made is the number of calls less one, plus the wait that is
    pending. *)
Theorem tryFetch_alternates_calls_and_waits {T} (c : Event)
    (func : AsyncFunction T) (fuel : nat) (w : World) :
  calls_only c func ->
  let l := fst (tryFetch fuel func w) in
  events_since w (snd (tryFetch fuel func w))
  = retry_trace c (calls l) ++ pending_wait l
  /\ (1 <= calls l)%nat
  /\ waits (backoffMachine l)
     = (calls l - 1 + List.length (pending_wait l))%nat.
Proof.
  intros Hf l. unfold l. rewrite tryFetch_unfold.
  destruct (Hf 0%nat w) as [Hcall Hpromise].
  assert (Hstart : tryFetch_start func w
                   = ({| backoffMachine := new_BackoffMachine; calls := 1;
                         stage := AwaitingFunc (fst (func 0%nat w)) |},
                      snd (func 0%nat w))).
  { unfold tryFetch_start, bind. destruct (func 0%nat w). reflexivity. }
  rewrite Hstart. cbn [fst snd].
  destruct (@tryFetch_run_shape _ c func w fuel Hf
              {| backoffMachine := new_BackoffMachine; calls := 1;
                 stage := AwaitingFunc (fst (func 0%nat w)) |}
              (snd (func 0%nat w)))
    as (Hc & Hw & Htr).
  - intros p H. injection H as <-. exact Hpromise.
  - cbn. lia.
  - reflexivity.
  - rewrite Hcall. reflexivity.
  - split; [|split; assumption].
    apply events_since_app. exact Htr.
Qed.

(** *** What a run of the initial fetch adds to the trace *)

Lemma adds_only_refl (P : Event -> Prop) (w : World) : adds_only P w w.
Proof. exists []. rewrite app_nil_r. auto. Qed.

Lemma adds_only_trans (P : Event -> Prop) (w1 w2 w3 : World) :
  adds_only P w1 w2 -> adds_only P w2 w3 -> adds_only P w1 w3.
Proof.
  intros (e1 & H1 & F1) (e2 & H2 & F2). exists (e1 ++ e2).
  rewrite H2, H1, app_assoc. split; [reflexivity|].
  apply Forall_app. auto.
Qed.

Lemma adds_only_one (P : Event -> Prop) (w w' : World) (e : Event) :
  trace w' = trace w ++ [e] -> P e -> adds_only P w w'.
Proof. intros H He. exists [e]. auto. Qed.

Lemma adds_only_same_trace (P : Event -> Prop) (w w' : World) :
  trace w' = trace w -> adds_only P w w'.
Proof. intros H. exists []. rewrite app_nil_r. auto. Qed.

Lemma adds_only_events (P : Event -> Prop) (w w' : World) :
  adds_only P w w' -> Forall P (events_since w w').
Proof.
  intros (evs & H & F). rewrite (@events_since_app w w' evs H). exact F.
Qed.

Lemma tryFetch_start_adds_only {T} (P : Event -> Prop) (c : Event)
    (f : AsyncFunction T) (w : World) :
  calls_only c f -> P c ->
  adds_only P w (snd (tryFetch_start f w))
  /\ quiet_loop (fst (tryFetch_start f w)).
Proof.
  intros Hf Hc. destruct (Hf 0%nat w) as [Hcall Hp].
  unfold tryFetch_start, bind. destruct (f 0%nat w) as [p w']. cbn in *.
  split; [exact (@adds_only_one P _ _ _ Hcall Hc)|].
  intros p' H. injection H as <-. exact Hp.
Qed.

Lemma tryFetch_step_adds_only {T} (P : Event -> Prop) (c : Event)
    (f : AsyncFunction T) (l : Loop T) (w : World) :
  calls_only c f -> P c -> P BackoffWait -> quiet_loop l ->
  adds_only P w (snd (tryFetch_step f l w))
  /\ quiet_loop (fst (tryFetch_step f l w)).
Proof.
  intros Hf Hc Hb Hl. unfold tryFetch_step, resume.
  destruct (stage l) as [p| |r] eqn:Hs.
  - pose proof (Hl p Hs (wake w)) as Hq.
    destruct (p (wake w)) as [[v|e] w'] eqn:Hp; cbn [snd wake trace] in Hq.
    + split; [apply adds_only_same_trace; exact Hq|].
      intros p' H. discriminate.
    + destruct (isClientError e).
      * split; [apply adds_only_same_trace; exact Hq|].
        intros p' H. discriminate.
      * split; [|intros p' H; discriminate].
        apply (@adds_only_one P _ _ BackoffWait); [|exact Hb].
        cbn. rewrite Hq. reflexivity.
  - destruct (Hf (calls l) (wake w)) as [Hcall Hp].
    unfold bind. destruct (f (calls l) (wake w)) as [p w']. cbn in *.
    split; [exact (@adds_only_one P _ _ _ Hcall Hc)|].
    intros p' H. injection H as <-. exact Hp.
  - split; [apply adds_only_refl|]. cbn. exact Hl.
Qed.

Lemma promise_all_adds_only {A B} (P : Event -> Prop) (c1 c2 : Event)
    (f1 : AsyncFunction A) (f2 : AsyncFunction B) (schedule : list Turn) :
  calls_only c1 f1 -> calls_only c2 f2 -> P c1 -> P c2 -> P BackoffWait ->
  forall (l1 : Loop A) (l2 : Loop B) (w : World),
    quiet_loop l1 -> quiet_loop l2 ->
    let out := promise_all schedule f1 f2 l1 l2 w in
    adds_only P w (snd out)
    /\ quiet_loop (first_loop (fst out))
    /\ quiet_loop (second_loop (fst out)).
Proof.
  intros H1 H2 Hc1 Hc2 Hb.
  induction schedule as [|t rest IH]; intros l1 l2 w Hq1 Hq2; cbn zeta;
    cbn [promise_all]; destruct (settle_all l1 l2) as [r|];
    try (cbn; split; [apply adds_only_refl|auto]).
  destruct t; unfold bind.
  - destruct (@tryFetch_step_adds_only _ P c1 f1 l1 w H1 Hc1 Hb Hq1)
      as [Hadd Hq1'].
    destruct (tryFetch_step f1 l1 w) as [l1' w1]. cbn [fst snd] in *.
    destruct (IH l1' l2 w1 Hq1' Hq2) as (Hadd' & Hrest).
    split; [exact (adds_only_trans Hadd Hadd')|exact Hrest].
  - destruct (@tryFetch_step_adds_only _ P c2 f2 l2 w H2 Hc2 Hb Hq2)
      as [Hadd Hq2'].
    destruct (tryFetch_step f2 l2 w) as [l2' w2]. cbn [fst snd] in *.
    destruct (IH l1 l2' w2 Hq1 Hq2') as (Hadd' & Hrest).
    split; [exact (adds_only_trans Hadd Hadd')|exact Hrest].
Qed.

Lemma background_adds_only {A B} (P : Event -> Prop) (c1 c2 : Event)
    (f1 : AsyncFunction A) (f2 : AsyncFunction B) (schedule : list Turn) :
  calls_only c1 f1 -> calls_only c2 f2 -> P c1 -> P c2 -> P BackoffWait ->
  forall (l1 : Loop A) (l2 : Loop B) (w : World),
    quiet_loop l1 -> quiet_loop l2 ->
    adds_only P w (snd (background schedule f1 f2 l1 l2 w)).
Proof.
  intros H1 H2 Hc1 Hc2 Hb.
  induction schedule as [|t rest IH]; intros l1 l2 w Hq1 Hq2;
    cbn [background]; [apply adds_only_refl|].
  destruct t; unfold bind.
  - destruct (@tryFetch_step_adds_only _ P c1 f1 l1 w H1 Hc1 Hb Hq1)
      as [Hadd Hq1'].
    destruct (tryFetch_step f1 l1 w) as [l1' w1]. cbn [fst snd] in *.
    exact (adds_only_trans Hadd (IH l1' l2 w1 Hq1' Hq2)).
  - destruct (@tryFetch_step_adds_only _ P c2 f2 l2 w H2 Hc2 Hb Hq2)
      as [Hadd Hq2'].
    destruct (tryFetch_step f2 l2 w) as [l2' w2]. cbn [fst snd] in *.
    exact (adds_only_trans Hadd (IH l1 l2' w2 Hq1 Hq2')).
Qed.

Lemma registerForEvents_func_calls_only (auth : Auth) :
  calls_only (RegisterForEventsCall auth registerParams)
    (registerForEvents_func auth).
Proof. intros n w. split; reflexivity. Qed.

Lemma getServerSettings_func_calls_only (auth : Auth) :
  calls_only (GetServerSettingsCall (realm auth)) (getServerSettings_func auth).
Proof. intros n w. split; reflexivity. Qed.

Lemma initial_requests_adds_only (P : Event -> Prop) (auth : Auth)
    (schedule : list Turn) (w : World) :
  P (RegisterForEventsCall auth registerParams) ->
  P (GetServerSettingsCall (realm auth)) ->
  P BackoffWait ->
  let out := initial_requests auth schedule w in
  adds_only P w (snd out)
  /\ quiet_loop (first_loop (fst out))
  /\ quiet_loop (second_loop (fst out)).
Proof.
  intros Hc1 Hc2 Hb. unfold initial_requests, bind.
  destruct (@tryFetch_start_adds_only _ P _ _ w
              (registerForEvents_func_calls_only auth) Hc1) as [Ha1 Hq1].
  destruct (tryFetch_start (registerForEvents_func auth) w) as [l1 w1].
  destruct (@tryFetch_start_adds_only _ P _ _ w1
              (getServerSettings_func_calls_only auth) Hc2) as [Ha2 Hq2].
  destruct (tryFetch_start (getServerSettings_func auth) w1) as [l2 w2].
  cbn [fst snd] in *.
  destruct (@promise_all_adds_only _ _ P _ _ _ _ schedule
              (registerForEvents_func_calls_only auth)
              (getServerSettings_func_calls_only auth) Hc1 Hc2 Hb l1 l2 w2
              Hq1 Hq2) as (Ha & Hrest).
  split; [|exact Hrest].
  exact (adds_only_trans (adds_only_trans Ha1 Ha2) Ha).
Qed.

Lemma dispatch_adds_only (P : Event -> Prop) (a : Action) (w : World) :
  P (Dispatched a) -> adds_only P w (snd (dispatch a w)).
Proof. intros H. apply (@adds_only_one P _ _ (Dispatched a)); [reflexivity|exact H]. Qed.

(** The events of a run of [doInitialFetch], of any outcome, with the
    promise it may have left behind settled. *)
Lemma run_doInitialFetch_adds_only (P : Event -> Prop) (schedule : list Turn)
    (w : World) :
  let auth := getAuth (reducer (store w) initialFetchStart) in
  P (RegisterForEventsCall auth registerParams) ->
  P (GetServerSettingsCall (realm auth)) ->
  P BackoffWait ->
  (forall a : Action, P (Dispatched a)) ->
  (forall (a : Auth) (p : GetMessagesParams), P (GetMessagesCall a p)) ->
  adds_only P w (snd (doInitialFetch schedule w))
  /\ adds_only P w (snd (run_doInitialFetch schedule w)).
Proof.
  intros auth Hc1 Hc2 Hb Hd Hg.
  pose proof (doInitialFetch_unfold schedule w) as E. cbn zeta in E.
  set (w1 := snd (dispatch initialFetchStart w)) in *.
  change (getAuth (store w1)) with auth in E.
  destruct (@initial_requests_adds_only P auth schedule w1 Hc1 Hc2 Hb)
    as (Hreq & Hq1 & Hq2).
  assert (H1 : adds_only P w w1) by (apply dispatch_adds_only, Hd).
  set (out := initial_requests auth schedule w1) in *.
  unfold run_doInitialFetch, bind. rewrite E.
  destruct (settlement (fst out)) as [[[initData serverSettings]|e]|].
  - set (w3 := snd (dispatch (START_EVENT_POLLING _ _) _)).
    assert (H3 : adds_only P w w3).
    { unfold w3.
      do 3 (eapply adds_only_trans; [|apply dispatch_adds_only, Hd]).
      exact (adds_only_trans H1 Hreq). }
    destruct (isAtLeast _ _); cbn [fst snd settle_floating].
    + assert (H5 : adds_only P w
                     (snd (dispatch INIT_NOTIFICATIONS
                             (snd (dispatch SEND_OUTBOX w3))))).
      { do 2 (eapply adds_only_trans; [|apply dispatch_adds_only, Hd]).
        exact H3. }
      split; exact H5.
    + assert (H5 : adds_only P w
                     (snd (dispatch INIT_NOTIFICATIONS
                             (snd (dispatch SEND_OUTBOX
                                     (snd (fetchPrivateMessages w3))))))).
      { do 2 (eapply adds_only_trans; [|apply dispatch_adds_only, Hd]).
        eapply adds_only_trans; [exact H3|].
        eapply adds_only_one; [rewrite fetchPrivateMessages_prefix; reflexivity|].
        apply Hg. }
      split; [exact H5|].
      set (w5 := snd (dispatch INIT_NOTIFICATIONS _)) in *.
      destruct (fetchPrivateMessages_promise w3 (wake w5))
        as (tail & Htail & _ & Hres).
      unfold resume.
      destruct (fst (fetchPrivateMessages w3) (wake w5)) as [r w6].
      cbn [fst snd ret] in *.
      eapply adds_only_trans; [exact H5|].
      exists tail. split; [exact Htail|].
      destruct (api_getMessages _ _); destruct Hres as [_ Ht].
      * destruct Ht as [act ->]. constructor; [apply Hd|constructor].
      * subst tail. constructor.
  - cbn [fst snd settle_floating ret].
    assert (H5 : adds_only P w
                   (snd (background (schedule_left (fst out))
                           (registerForEvents_func auth)
                           (getServerSettings_func auth)
                           (first_loop (fst out)) (second_loop (fst out))
                           (snd (dispatch LOGOUT (snd out)))))).
    { eapply adds_only_trans;
        [|exact (@background_adds_only _ _ P _ _ _ _ _
                   (registerForEvents_func_calls_only auth)
                   (getServerSettings_func_calls_only auth) Hc1 Hc2 Hb _ _ _
                   Hq1 Hq2)].
      eapply adds_only_trans; [|apply dispatch_adds_only, Hd].
      exact (adds_only_trans H1 Hreq). }
    split; exact H5.
  - cbn [fst snd ret]. split; exact (adds_only_trans H1 Hreq).
Qed.

(** X3.  Every registration request and every server settings request of a
    run of [doInitialFetch], the retries and those made after a logout
    included, is made with the auth read from the store right after the
    initial fetch start was dispatched, and with the same parameters,
    whatever happens to the store in the meantime. *)
Theorem doInitialFetch_requests_use_the_auth_read_first (schedule : list Turn)
    (w : World) :
  let auth := getAuth (reducer (store w) initialFetchStart) in
  let evs := events_since w (snd (run_doInitialFetch schedule w)) in
  (forall (a : Auth) (p : RegisterParams),
      In (RegisterForEventsCall a p) evs -> a = auth /\ p = registerParams)
  /\ (forall r : string,
      In (GetServerSettingsCall r) evs -> r = realm auth).
Proof.
  intros auth evs.
  assert (F : Forall (startup_request_for auth) evs).
  { apply adds_only_events.
    apply (@run_doInitialFetch_adds_only (startup_request_for auth) schedule w);
      cbn; auto. }
  rewrite Forall_forall in F. split.
  - intros a p Hin. exact (F _ Hin).
  - intros r Hin. exact (F _ Hin).
Qed.

(** X4.  In a run of [doInitialFetch] whose two startup requests succeed,
    the actions dispatched are, in this order: the initial fetch start, the
    realm init with the data of the registration and the version string of
    the server settings, the initial fetch complete, the start of event
    polling with the queue id and the last event id of the registration,
    the sending of the outbox and the initialisation of notifications.
    Only the one action of [fetchPrivateMessages] can follow, and it
    follows them all; with a server at or above
    [MIN_RECENTPMS_SERVER_VERSION] nothing follows. *)
Theorem doInitialFetch_success_order (schedule : list Turn) (w : World)
    (initData : InitialData) (serverSettings : ApiResponseServerSettings) :
  let w1 := snd (dispatch initialFetchStart w) in
  let awaited := fst (initial_requests (getAuth (store w1)) schedule w1) in
  let serverVersion := {| raw_version := zulip_version serverSettings |} in
  let evs := events_since w (snd (run_doInitialFetch schedule w)) in
  settlement awaited = Some (Ok (initData, serverSettings)) ->
  exists tail : list Action,
    signals evs
    = [initialFetchStart;
       REALM_INIT initData serverVersion;
       initialFetchComplete;
       START_EVENT_POLLING (queue_id initData) (last_event_id initData);
       SEND_OUTBOX;
       INIT_NOTIFICATIONS] ++ tail
    /\ (List.length tail <= 1)%nat
    /\ (isAtLeast serverVersion MIN_RECENTPMS_SERVER_VERSION = true ->
        tail = []).
Proof.
  intros w1 awaited serverVersion evs Hok.
  destruct (@run_doInitialFetch_fulfilled schedule w initData serverSettings Hok)
    as (retries & Hretries & Hrun).
  fold serverVersion in Hrun.
  destruct (retry_events_silent _ Hretries) as [Hsig _].
  destruct (isAtLeast serverVersion MIN_RECENTPMS_SERVER_VERSION).
  - destruct Hrun as [_ Hevs]. fold evs in Hevs. exists [].
    rewrite Hevs, !signals_app, Hsig. cbn. auto.
  - destruct Hrun as (s3 & tail & Hevs & _ & Hres). cbn zeta in Hevs, Hres.
    fold evs in Hevs. exists (signals tail).
    rewrite Hevs, !signals_app, Hsig. cbn [app signals flat_map].
    split; [reflexivity|]. split; [|discriminate].
    destruct (api_getMessages _ _); destruct Hres as [_ Ht].
    + destruct Ht as [act ->]. cbn. lia.
    + subst tail. cbn. lia.
Qed.

(** X5.  As long as the await of the two startup requests has not settled,
    [doInitialFetch] has dispatched the initial fetch start and nothing
    else, and has made no messages request: what one request has already
    brought is not applied while the other is still retried. *)
Theorem doInitialFetch_applies_nothing_while_pending (schedule : list Turn)
    (w : World) :
  let w1 := snd (dispatch initialFetchStart w) in
  let awaited := fst (initial_requests (getAuth (store w1)) schedule w1) in
  let finished := doInitialFetch schedule w in
  settlement awaited = None ->
  fst finished = Suspended
  /\ signals (events_since w (snd finished)) = [initialFetchStart]
  /\ getMessages_calls (events_since w (snd finished)) = []
  /\ (stage (first_loop awaited) = AwaitingBackoff
      \/ stage (second_loop awaited) = AwaitingBackoff
      \/ (exists p, stage (first_loop awaited) = AwaitingFunc p)
      \/ (exists p, stage (second_loop awaited) = AwaitingFunc p)).
Proof.
  intros w1 awaited finished Hnone.
  destruct (@doInitialFetch_pending schedule w Hnone)
    as (_ & evs & Hev & Hevents).
  fold finished in Hevents.
  pose proof (doInitialFetch_unfold schedule w) as E. cbn zeta in E.
  fold w1 in E. fold awaited in E. rewrite Hnone in E. fold finished in E.
  destruct (retry_events_silent _ Hev) as [Hs Hc].
  split; [rewrite E; reflexivity|].
  split; [rewrite Hevents, signals_app, Hs; reflexivity|].
  split; [rewrite Hevents, getMessages_calls_app, Hc; reflexivity|].
  destruct (initial_requests_spec (getAuth (store w1)) schedule w1)
    as (_ & _ & _ & _ & _ & Hset).
  fold awaited in Hset. rewrite Hnone in Hset. unfold settle_all in Hset.
  destruct (stage (first_loop awaited)) as [p1| |[a|e1]]; eauto.
  - destruct (stage (second_loop awaited)) as [p2| |[b|e2]]; eauto; discriminate.
  - discriminate.
Qed.

(** *** Runs that reach their end *)

Lemma tryFetch_step_oblivious {T} (f : AsyncFunction T) (l : Loop T)
    (w w' : World) :
  oblivious_func f -> oblivious_loop l ->
  fst (tryFetch_step f l w) = fst (tryFetch_step f l w')
  /\ oblivious_loop (fst (tryFetch_step f l w)).
Proof.
  intros Hf Hl. unfold tryFetch_step, resume.
  destruct (stage l) as [p| |r] eqn:Hs.
  - pose proof (Hl p Hs (wake w) (wake w')) as E.
    destruct (p (wake w)) as [r1 w1]. destruct (p (wake w')) as [r2 w2].
    cbn [fst] in E. subst r2.
    destruct r1 as [v|e]; [|destruct (isClientError e)]; cbn;
      (split; [reflexivity|intros p' H; discriminate]).
  - destruct (Hf (calls l) (wake w) (wake w')) as [E Hp].
    unfold bind.
    destruct (f (calls l) (wake w)) as [p1 w1].
    destruct (f (calls l) (wake w')) as [p2 w2].
    cbn [fst] in *. subst p2. cbn. split; [reflexivity|].
    intros p' H. injection H as <-. exact Hp.
  - cbn. split; [reflexivity|exact Hl].
Qed.

Lemma tryFetch_run_oblivious {T} (f : AsyncFunction T) (fuel : nat) :
  oblivious_func f ->
  forall (l : Loop T) (w w' : World),
    oblivious_loop l ->
    fst (tryFetch_run fuel f l w) = fst (tryFetch_run fuel f l w').
Proof.
  intros Hf. induction fuel as [|fuel IH]; intros l w w' Hl; [reflexivity|].
  rewrite !tryFetch_run_S.
  destruct (@tryFetch_step_oblivious _ f l w w' Hf Hl) as [E Hl'].
  rewrite <- E. apply IH. exact Hl'.
Qed.

Lemma ends_within_settled {T} (f : AsyncFunction T) (m : nat) (l : Loop T)
    (r r' : Res T) (w : World) :
  ends_within f m l r -> stage l = Settled r' -> r' = r.
Proof.
  intros He Hs.
  pose proof (He m w (le_n m)) as H.
  rewrite (@tryFetch_run_settled _ f m l r' _ Hs) in H. cbn in H.
  rewrite Hs in H. injection H as ->. reflexivity.
Qed.

Lemma ends_within_zero {T} (f : AsyncFunction T) (l : Loop T) (r : Res T)
    (w : World) :
  ends_within f 0 l r -> stage l = Settled r.
Proof. intros He. exact (He 0%nat w (le_n 0)). Qed.

Lemma ends_within_step {T} (f : AsyncFunction T) (m : nat) (l : Loop T)
    (r : Res T) (w : World) :
  oblivious_func f -> oblivious_loop l ->
  ends_within f m l r ->
  ends_within f (pred m) (fst (tryFetch_step f l w)) r.
Proof.
  intros Hf Hl He fuel w' Hfuel.
  destruct (@tryFetch_step_oblivious _ f l w w Hf Hl) as [_ Hl'].
  rewrite (@tryFetch_run_oblivious _ f fuel Hf _ w'
             (snd (tryFetch_step f l w)) Hl').
  rewrite <- tryFetch_run_S. apply He. lia.
Qed.

Lemma first_turns_cons (t : Turn) (rest : list Turn) :
  first_turns (t :: rest)
  = (if is_first t then S (first_turns rest) else first_turns rest).
Proof. unfold first_turns. cbn. destruct (is_first t); reflexivity. Qed.

Lemma second_turns_cons (t : Turn) (rest : list Turn) :
  second_turns (t :: rest)
  = (if is_first t then second_turns rest else S (second_turns rest)).
Proof. unfold second_turns. cbn. destruct (is_first t); reflexivity. Qed.

(** Both loops end with a value, each within the turns the schedule gives
    it: [Promise.all] fulfils with the two values. *)
Lemma promise_all_fulfils {A B} (f1 : AsyncFunction A) (f2 : AsyncFunction B)
    (a : A) (b : B) (schedule : list Turn) :
  oblivious_func f1 -> oblivious_func f2 ->
  forall (l1 : Loop A) (l2 : Loop B) (m1 m2 : nat) (w : World),
    oblivious_loop l1 -> oblivious_loop l2 ->
    ends_within f1 m1 l1 (Ok a) -> ends_within f2 m2 l2 (Ok b) ->
    (m1 <= first_turns schedule)%nat ->
    (m2 <= second_turns schedule)%nat ->
    settlement (fst (promise_all schedule f1 f2 l1 l2 w)) = Some (Ok (a, b)).
Proof.
  intros Hf1 Hf2.
  induction schedule as [|t rest IH];
    intros l1 l2 m1 m2 w Hl1 Hl2 He1 He2 Hm1 Hm2;
    rewrite promise_all_unfold.
  - cbn in Hm1, Hm2.
    assert (m1 = 0%nat) by lia. assert (m2 = 0%nat) by lia. subst m1 m2.
    unfold settle_all.
    rewrite (ends_within_zero w He1), (ends_within_zero w He2). reflexivity.
  - destruct (settle_all l1 l2) as [r|] eqn:Hs.
    + cbn. f_equal. unfold settle_all in Hs.
      destruct (stage l1) as [p1| |[a'|e1]] eqn:E1;
        destruct (stage l2) as [p2| |[b'|e2]] eqn:E2;
        try discriminate;
        try (pose proof (ends_within_settled w He1 E1); discriminate);
        try (pose proof (ends_within_settled w He2 E2); discriminate).
      pose proof (ends_within_settled w He1 E1) as X1.
      pose proof (ends_within_settled w He2 E2) as X2.
      injection X1 as ->. injection X2 as ->. injection Hs as <-.
      reflexivity.
    + rewrite first_turns_cons in Hm1. rewrite second_turns_cons in Hm2.
      destruct t; cbn [is_first] in *.
      * destruct (@tryFetch_step_oblivious _ f1 l1 w w Hf1 Hl1) as [_ Hl1'].
        apply (IH _ l2 (pred m1) m2); auto; [|lia].
        apply ends_within_step; assumption.
      * destruct (@tryFetch_step_oblivious _ f2 l2 w w Hf2 Hl2) as [_ Hl2'].
        apply (IH l1 _ m1 (pred m2)); auto; [|lia].
        apply ends_within_step; assumption.
Qed.

(** The second loop ends by rethrowing, within the turns the schedule gives
    it: [Promise.all] rejects, whatever the first loop does. *)
Lemma promise_all_rejects_second {A B} (f1 : AsyncFunction A)
    (f2 : AsyncFunction B) (e : JsError) (schedule : list Turn) :
  oblivious_func f1 -> oblivious_func f2 ->
  forall (l1 : Loop A) (l2 : Loop B) (m2 : nat) (w : World),
    oblivious_loop l1 -> oblivious_loop l2 ->
    ends_within f2 m2 l2 (Throw e) ->
    (m2 <= second_turns schedule)%nat ->
    exists e' : JsError,
      settlement (fst (promise_all schedule f1 f2 l1 l2 w)) = Some (Throw e').
Proof.
  intros Hf1 Hf2.
  induction schedule as [|t rest IH]; intros l1 l2 m2 w Hl1 Hl2 He2 Hm2;
    rewrite promise_all_unfold.
  - cbn in Hm2. assert (m2 = 0%nat) by lia. subst m2.
    destruct (@settle_all_of_rejected _ _ l1 l2 e
                (or_intror (ends_within_zero w He2))) as [e' Hs].
    rewrite Hs. exists e'. reflexivity.
  - destruct (settle_all l1 l2) as [r|] eqn:Hs.
    + destruct r as [[a b]|e'].
      * destruct (settle_all_fulfilled _ _ Hs) as [_ E2].
        pose proof (ends_within_settled w He2 E2). discriminate.
      * exists e'. reflexivity.
    + rewrite second_turns_cons in Hm2.
      destruct t; cbn [is_first] in *.
      * destruct (@tryFetch_step_oblivious _ f1 l1 w w Hf1 Hl1) as [_ Hl1'].
        apply (IH _ l2 m2); auto.
      * destruct (@tryFetch_step_oblivious _ f2 l2 w w Hf2 Hl2) as [_ Hl2'].
        apply (IH l1 _ (pred m2)); auto; [|lia].
        apply ends_within_step; assumption.
Qed.

(** The same for the first loop. *)
Lemma promise_all_rejects_first {A B} (f1 : AsyncFunction A)
    (f2 : AsyncFunction B) (e : JsError) (schedule : list Turn) :
  oblivious_func f1 -> oblivious_func f2 ->
  forall (l1 : Loop A) (l2 : Loop B) (m1 : nat) (w : World),
    oblivious_loop l1 -> oblivious_loop l2 ->
    ends_within f1 m1 l1 (Throw e) ->
    (m1 <= first_turns schedule)%nat ->
    exists e' : JsError,
      settlement (fst (promise_all schedule f1 f2 l1 l2 w)) = Some (Throw e').
Proof.
  intros Hf1 Hf2.
  induction schedule as [|t rest IH]; intros l1 l2 m1 w Hl1 Hl2 He1 Hm1;
    rewrite promise_all_unfold.
  - cbn in Hm1. assert (m1 = 0%nat) by lia. subst m1.
    destruct (@settle_all_of_rejected _ _ l1 l2 e
                (or_introl (ends_within_zero w He1))) as [e' Hs].
    rewrite Hs. exists e'. reflexivity.
  - destruct (settle_all l1 l2) as [r|] eqn:Hs.
    + destruct r as [[a b]|e'].
      * destruct (settle_all_fulfilled _ _ Hs) as [E1 _].
        pose proof (ends_within_settled w He1 E1). discriminate.
      * exists e'. reflexivity.
    + rewrite first_turns_cons in Hm1.
      destruct t; cbn [is_first] in *.
      * destruct (@tryFetch_step_oblivious _ f1 l1 w w Hf1 Hl1) as [_ Hl1'].
        apply (IH _ l2 (pred m1)); auto; [|lia].
        apply ends_within_step; assumption.
      * destruct (@tryFetch_step_oblivious _ f2 l2 w w Hf2 Hl2) as [_ Hl2'].
        apply (IH l1 _ m1); auto.
Qed.

Lemma registerForEvents_func_oblivious (auth : Auth) :
  oblivious_func (registerForEvents_func auth).
Proof. intros n w w'. split; reflexivity. Qed.

Lemma getServerSettings_func_oblivious (auth : Auth) :
  oblivious_func (getServerSettings_func auth).
Proof. intros n w w'. split; reflexivity. Qed.

Lemma tryFetch_start_oblivious {T} (f : AsyncFunction T) (w : World) :
  oblivious_func f -> oblivious_loop (fst (tryFetch_start f w)).
Proof.
  intros Hf. destruct (Hf 0%nat w w) as [_ Hp].
  unfold tryFetch_start, bind. destruct (f 0%nat w) as [p w']. cbn in *.
  intros p' H. injection H as <-. exact Hp.
Qed.

(** A loop just started ends with [r] within [2 * k + 1] awaits if the
    calls fail [k] times with errors that are not client errors and the
    next one settles with [r], a value or a client error. *)
Lemma tryFetch_start_ends_within {T} (f : AsyncFunction T) (k : nat)
    (r : Res T) (w : World) :
  (forall i : nat, (i < k)%nat -> fails_transiently f i) ->
  settles_with f k r ->
  (forall e : JsError, r = Throw e -> isClientError e = true) ->
  ends_within f (2 * k + 1) (fst (tryFetch_start f w)) r.
Proof.
  intros Htrans Hlast Hr fuel w' Hfuel.
  rewrite (@tryFetch_run_rounds _ f k 0 fuel _ w' r); auto.
  - apply tryFetch_start_at_call.
  - intros i Hi. apply Htrans. lia.
Qed.

Lemma register_loop_ends (auth : Auth) (k : nat) (r : Res InitialData)
    (w : World) :
  (forall i : nat, (i < k)%nat ->
     exists e : JsError,
       api_registerForEvents i auth registerParams = Throw e
       /\ isClientError e = false) ->
  api_registerForEvents k auth registerParams = r ->
  (forall e : JsError, r = Throw e -> isClientError e = true) ->
  ends_within (registerForEvents_func auth) (2 * k + 1)
    (fst (tryFetch_start (registerForEvents_func auth) w)) r.
Proof.
  intros Htrans Hlast Hr. apply tryFetch_start_ends_within; [| |exact Hr].
  - intros i Hi. destruct (Htrans i Hi) as (e & He & Hc).
    exists e. split; [exact Hc|]. intros w1 w2. exact He.
  - intros w1 w2. exact Hlast.
Qed.

Lemma settings_loop_ends (auth : Auth) (k : nat)
    (r : Res ApiResponseServerSettings) (w : World) :
  (forall i : nat, (i < k)%nat ->
     exists e : JsError,
       api_getServerSettings i (realm auth) = Throw e
       /\ isClientError e = false) ->
  api_getServerSettings k (realm auth) = r ->
  (forall e : JsError, r = Throw e -> isClientError e = true) ->
  ends_within (getServerSettings_func auth) (2 * k + 1)
    (fst (tryFetch_start (getServerSettings_func auth) w)) r.
Proof.
  intros Htrans Hlast Hr. apply tryFetch_start_ends_within; [| |exact Hr].
  - intros i Hi. destruct (Htrans i Hi) as (e & He & Hc).
    exists e. split; [exact Hc|]. intros w1 w2. exact He.
  - intros w1 w2. exact Hlast.
Qed.

Lemma initial_requests_unfold (auth : Auth) (schedule : list Turn) (w : World) :
  let s1 := tryFetch_start (registerForEvents_func auth) w in
  let s2 := tryFetch_start (getServerSettings_func auth) (snd s1) in
  initial_requests auth schedule w
  = promise_all schedule (registerForEvents_func auth)
      (getServerSettings_func auth) (fst s1) (fst s2) (snd s2).
Proof.
  cbn zeta. unfold initial_requests, bind.
  destruct (tryFetch_start (registerForEvents_func auth) w) as [l1 w1].
  cbn [fst snd].
  destruct (tryFetch_start (getServerSettings_func auth) w1) as [l2 w2].
  reflexivity.
Qed.

(** X6.  If the registration succeeds at its call number [k1] and the
    server settings request at its call number [k2], after failures that
    are not client errors, then [doInitialFetch] gets through in every
    interleaving of the two retry loops that gives the first at least
    [2 * k1 + 1] turns and the second at least [2 * k2 + 1]: it returns,
    having dispatched the realm init with that registration's data and
    that version, the initial fetch complete and the start of event
    polling. *)
Theorem doInitialFetch_completes_in_every_interleaving (schedule : list Turn)
    (w : World) (k1 k2 : nat) (data : InitialData)
    (settings : ApiResponseServerSettings) :
  let auth := getAuth (reducer (store w) initialFetchStart) in
  let finished := run_doInitialFetch schedule w in
  let acts := signals (events_since w (snd finished)) in
  register_succeeds_at auth k1 data ->
  settings_succeed_at auth k2 settings ->
  (2 * k1 + 1 <= first_turns schedule)%nat ->
  (2 * k2 + 1 <= second_turns schedule)%nat ->
  fst finished <> None
  /\ In (REALM_INIT data {| raw_version := zulip_version settings |}) acts
  /\ In initialFetchComplete acts
  /\ In (START_EVENT_POLLING (queue_id data) (last_event_id data)) acts.
Proof.
  intros auth finished acts [Ht1 Hl1] [Ht2 Hl2] Hm1 Hm2.
  set (w1 := snd (dispatch initialFetchStart w)).
  assert (Hok : settlement (fst (initial_requests (getAuth (store w1)) schedule w1))
                = Some (Ok (data, settings))).
  { change (getAuth (store w1)) with auth.
    rewrite initial_requests_unfold.
    apply (@promise_all_fulfils _ _ _ _ data settings schedule
             (registerForEvents_func_oblivious auth)
             (getServerSettings_func_oblivious auth) _ _
             (2 * k1 + 1)%nat (2 * k2 + 1)%nat); auto.
    - apply tryFetch_start_oblivious, registerForEvents_func_oblivious.
    - apply tryFetch_start_oblivious, getServerSettings_func_oblivious.
    - apply register_loop_ends; auto. discriminate.
    - apply settings_loop_ends; auto. discriminate. }
  destruct (@run_doInitialFetch_fulfilled schedule w data settings Hok)
    as (retries & Hretries & Hrun).
  fold finished in Hrun.
  destruct (retry_events_silent _ Hretries) as [Hsig _].
  destruct (isAtLeast _ _).
  - destruct Hrun as [Hret Hevs]. unfold acts.
    rewrite Hevs, !signals_app, Hsig, Hret. cbn.
    split; [discriminate|]. auto 10.
  - destruct Hrun as (s3 & tail & Hevs & _ & Hres). cbn zeta in Hevs, Hres.
    unfold acts. rewrite Hevs, !signals_app, Hsig. cbn.
    split; [|auto 10].
    destruct (api_getMessages _ _); destruct Hres as [-> _]; discriminate.
Qed.

(** X7.  If the server settings request meets a client error at its call
    number [k], after failures that are not client errors, then
    [doInitialFetch] logs out in every interleaving that gives the second
    retry loop at least [2 * k + 1] turns, whatever the registration does;
    and likewise for a registration refused, with the turns of the first
    loop.  The actions of the run are then the initial fetch start and the
    logout. *)
Theorem doInitialFetch_logs_out_in_every_interleaving (schedule : list Turn)
    (w : World) (k : nat) (e : JsError) :
  let auth := getAuth (reducer (store w) initialFetchStart) in
  let finished := doInitialFetch schedule w in
  (settings_refused_at auth k e /\ (2 * k + 1 <= second_turns schedule)%nat)
  \/ (register_refused_at auth k e /\ (2 * k + 1 <= first_turns schedule)%nat) ->
  fst finished = Returned None
  /\ signals (events_since w (snd finished)) = [initialFetchStart; LOGOUT].
Proof.
  intros auth finished H.
  set (w1 := snd (dispatch initialFetchStart w)).
  assert (Hrej : exists e' : JsError,
             settlement (fst (initial_requests (getAuth (store w1)) schedule w1))
             = Some (Throw e')).
  { change (getAuth (store w1)) with auth.
    rewrite initial_requests_unfold.
    destruct H as [[(Ht & Hl & Hc) Hm]|[(Ht & Hl & Hc) Hm]].
    - apply (@promise_all_rejects_second _ _ _ _ e schedule
               (registerForEvents_func_oblivious auth)
               (getServerSettings_func_oblivious auth) _ _ (2 * k + 1)%nat);
        auto.
      + apply tryFetch_start_oblivious, registerForEvents_func_oblivious.
      + apply tryFetch_start_oblivious, getServerSettings_func_oblivious.
      + apply settings_loop_ends; auto.
        intros e0 E. injection E as <-. exact Hc.
    - apply (@promise_all_rejects_first _ _ _ _ e schedule
               (registerForEvents_func_oblivious auth)
               (getServerSettings_func_oblivious auth) _ _ (2 * k + 1)%nat);
        auto.
      + apply tryFetch_start_oblivious, registerForEvents_func_oblivious.
      + apply tryFetch_start_oblivious, getServerSettings_func_oblivious.
      + apply register_loop_ends; auto.
        intros e0 E. injection E as <-. exact Hc. }
  destruct Hrej as [e' Hrej].
  destruct (@doInitialFetch_rejected schedule w e' Hrej)
    as (Hret & evs & bg & Hev & Hbg & Hevents).
  fold finished in Hret, Hevents.
  split; [exact Hret|].
  destruct (retry_events_silent _ Hev) as [Hs1 _].
  destruct (retry_events_silent _ Hbg) as [Hs2 _].
  rewrite Hevents, !signals_app, Hs1, Hs2. reflexivity.
Qed.

(** *** Uploading a file *)

(** X8.  [uploadFile] sends one upload request, with the auth of the store
    and the uri and name it was given.  Something is handed to the outbox
    if and only if that request succeeds, and then it is one message for
    the narrow given, the link made of the name and of the uri in the
    response; if the request fails the thunk rejects with the same error
    and the outbox gets nothing. *)
Theorem uploadFile_outbox_iff_uploaded (narrow : Narrow) (uri name : string)
    (state : GlobalState) :
  let auth := getAuth state in
  let run := uploadFile narrow uri name state in
  hd_error (snd run) = Some (UploadFileCall auth uri name)
  /\ ((exists (n : Narrow) (content : string), In (AddToOutbox n content) (snd run))
      <-> fst run = Ok tt)
  /\ (forall response : UploadResponse,
        api_uploadFile auth uri name = Ok response ->
        run = (Ok tt,
               [UploadFileCall auth uri name;
                AddToOutbox narrow
                  (messageToSend name (response_uri response))]))
  /\ (forall e : JsError,
        api_uploadFile auth uri name = Throw e ->
        run = (Throw e, [UploadFileCall auth uri name])).
Proof.
  intros auth run. unfold run, uploadFile. fold auth.
  destruct (api_uploadFile auth uri name) as [response|e]; cbn.
  - split; [reflexivity|]. split; [|split].
    + split; [reflexivity|]. intros _. eauto.
    + intros r H. injection H as <-. reflexivity.
    + intros e H. discriminate.
  - split; [reflexivity|]. split; [|split].
    + split; [|discriminate].
      intros (n & c & [H|[]]). discriminate.
    + intros r H. discriminate.
    + intros e' H. injection H as <-. reflexivity.
Qed.

Lemma append_last_injective (a b : string) (c : Ascii.ascii) :
  (a ++ String c "")%string = (b ++ String c "")%string -> a = b.
Proof.
  revert b. induction a as [|x a IH]; intros [|y b] H; cbn in H.
  - reflexivity.
  - injection H as _ H. destruct b; discriminate.
  - injection H as _ H. destruct a; discriminate.
  - injection H as -> H. f_equal. apply IH. exact H.
Qed.

Lemma split_at_first (c : Ascii.ascii) (n1 n2 t1 t2 : string) :
  occurs c n1 = false -> occurs c n2 = false ->
  (n1 ++ String c t1)%string = (n2 ++ String c t2)%string ->
  n1 = n2 /\ t1 = t2.
Proof.
  revert n2. induction n1 as [|x n1 IH]; intros [|y n2] H1 H2 H; cbn in *.
  - injection H as ->. auto.
  - injection H as -> _. rewrite Ascii.eqb_refl in H2. discriminate.
  - injection H as -> _. rewrite Ascii.eqb_refl in H1. discriminate.
  - injection H as -> H.
    apply orb_false_iff in H1 as [_ H1]. apply orb_false_iff in H2 as [_ H2].
    destruct (IH n2 H1 H2 H) as [-> ->]. auto.
Qed.

(** X9.  The message [uploadFile] composes does not escape the name.  For
    names without a closing bracket the message tells the name and the uri
    apart: two uploads with the same message have the same name and the
    same uri.  A name with a closing bracket can break this: the name
    [a](b] with the uri [c] and the name [a] with the uri [b](c] give the
    same message. *)
Theorem messageToSend_unambiguous_without_bracket :
  (forall name1 uri1 name2 uri2 : string,
      occurs "]"%char name1 = false ->
      occurs "]"%char name2 = false ->
      messageToSend name1 uri1 = messageToSend name2 uri2 ->
      name1 = name2 /\ uri1 = uri2)
  /\ messageToSend "a](b" "c" = messageToSend "a" "b](c".
Proof.
  split; [|reflexivity].
  intros name1 uri1 name2 uri2 H1 H2 H. unfold messageToSend in H.
  cbn in H. injection H as H.
  destruct (@split_at_first "]"%char name1 name2 _ _ H1 H2 H) as [-> Ht].
  injection Ht as Ht. split; [reflexivity|].
  exact (append_last_injective _ _ _ Ht).
Qed.

(** *** Fetching in a narrow *)

(** X10.  When a fetch is needed, [fetchMessagesInNarrow] ends in the
    world [fetchMessages] ends in with the centering window.  If the
    request succeeds and the store takes the complete action, it resolves
    to the messages of the response, after the start action, the request
    and the complete action with those messages.  If the store throws on
    the complete action, it rejects with what was thrown, after the error
    action has followed the complete action. *)
Theorem fetchMessagesInNarrow_returns_fetched_messages (narrow : Narrow)
    (anchor_arg : option Z) (w : World) (response : GetMessagesResponse) :
  let anchor := match anchor_arg with
                | Some a => a
                | None => FIRST_UNREAD_ANCHOR
                end in
  let half := (messagesPerRequest / (2 # 1))%Q in
  let start := messageFetchStart narrow half half in
  let s1 := reducer (store w) start in
  let params :=
    {| gm_narrow := apiNarrowOfNarrow narrow (getAllUsersById s1);
       gm_anchor := anchor;
       gm_numBefore := half;
       gm_numAfter := half;
       gm_useFirstUnread := Some (anchor =? FIRST_UNREAD_ANCHOR) |} in
  let done :=
    messageFetchComplete (messages response) narrow anchor half half
      (found_newest response) (found_oldest response)
      (getOwnUserId (meanwhile s1)) in
  let settled := run_async (fetchMessagesInNarrow narrow anchor_arg) w in
  isFetchNeededAtAnchor (store w) narrow anchor = true ->
  api_getMessages (getAuth s1) params = Ok response ->
  snd settled
  = snd (run_async (fetchMessages
                      {| fa_narrow := narrow; fa_anchor := anchor;
                         fa_numBefore := half; fa_numAfter := half |}) w)
  /\ (reducer_throws (meanwhile s1) done = None ->
      fst settled = Ok (Some (messages response))
      /\ events_since w (snd settled)
         = [Dispatched start; GetMessagesCall (getAuth s1) params;
            Dispatched done])
  /\ (forall e : JsError,
        reducer_throws (meanwhile s1) done = Some e ->
        fst settled = Throw e
        /\ events_since w (snd settled)
           = [Dispatched start; GetMessagesCall (getAuth s1) params;
              Dispatched done; Dispatched (messageFetchError narrow e)]).
Proof.
  intros anchor half start s1 params done settled Hneed Hok.
  change anchor with (anchor_or_default anchor_arg) in *.
  unfold settled.
  rewrite (@fetchMessagesInNarrow_fires narrow anchor_arg w Hneed).
  change {| fa_narrow := narrow; fa_anchor := anchor_or_default anchor_arg;
            fa_numBefore := half; fa_numAfter := half |}
    with (centering_args narrow (anchor_or_default anchor_arg)).
  pose proof (fetchMessages_settles
                (centering_args narrow (anchor_or_default anchor_arg)) w) as Hs.
  cbn zeta in Hs. cbn [centering_args fa_narrow fa_anchor fa_numBefore fa_numAfter] in Hs.
  fold half in Hs. fold start in Hs. fold s1 in Hs. fold params in Hs.
  rewrite Hok in Hs. fold done in Hs.
  split; [|split].
  - destruct (run_async (fetchMessages
                (centering_args narrow (anchor_or_default anchor_arg))) w)
      as [[msgs|e] w1]; reflexivity.
  - intros Htakes. rewrite Htakes in Hs. rewrite Hs. cbn [fst snd].
    split; [reflexivity|]. apply events_since_app. reflexivity.
  - intros e Hthrows. rewrite Hthrows in Hs. rewrite Hs. cbn [fst snd].
    split; [reflexivity|]. apply events_since_app. reflexivity.
Qed.

End FetchActions.

(** ** The theorems at work on the sample store and server *)

(** [fetchOlder] with 50 messages per request and first message 1000. *)
Lemma fetchOlder_issues_iff_guard_witness :
  getMessages_calls
    (events_since Sample.world0
       (run_detached Sample.meanwhile
          (fetchOlder Sample.reducer Sample.never_throws Sample.getMessages_ok Sample.apiNarrowOfNarrow
             Sample.messagesPerRequest Sample.FIRST_UNREAD_ANCHOR
             Sample.stream_narrow)
          Sample.world0))
  = [(Sample.auth,
      {| gm_narrow := Sample.stream_narrow;
         gm_anchor := 1000;
         gm_numBefore := 50 # 1;
         gm_numAfter := 0;
         gm_useFirstUnread := Some false |})].
Proof.
  apply (proj1 (proj2
           (fetchOlder_issues_iff_guard Sample.reducer Sample.never_throws Sample.meanwhile
              Sample.getMessages_ok Sample.apiNarrowOfNarrow
              Sample.messagesPerRequest Sample.FIRST_UNREAD_ANCHOR
              Sample.stream_narrow Sample.world0)) 1000).
  - unfold older_guard. cbn. repeat split; discriminate.
  - reflexivity.
Defined.

(** [fetchMessages] against a server that answers, with a store that takes
    the messages and with one that throws on them, and against a server
    that fails. *)
Lemma fetchMessages_start_then_outcome_witness :
  let fetchArgs := {| fa_narrow := Sample.stream_narrow; fa_anchor := 1000;
                      fa_numBefore := 50 # 1; fa_numAfter := 0 |} in
  fst (run_async Sample.meanwhile
         (fetchMessages Sample.reducer Sample.never_throws
            Sample.getMessages_ok Sample.apiNarrowOfNarrow
            Sample.FIRST_UNREAD_ANCHOR fetchArgs)
         Sample.world0)
  = Ok [Sample.message1]
  /\ fst (run_async Sample.meanwhile
            (fetchMessages Sample.reducer Sample.throws_on_messages
               Sample.getMessages_ok Sample.apiNarrowOfNarrow
               Sample.FIRST_UNREAD_ANCHOR fetchArgs)
            Sample.world0)
     = Throw (OtherError "unexpected message data")
  /\ fst (run_async Sample.meanwhile
            (fetchMessages Sample.reducer Sample.never_throws
               Sample.getMessages_500 Sample.apiNarrowOfNarrow
               Sample.FIRST_UNREAD_ANCHOR fetchArgs)
            Sample.world0)
     = Throw (ApiError 500 "INTERNAL").
Proof.
  intros fetchArgs. split; [|split].
  - apply (proj1 (proj1 (proj2
             (fetchMessages_start_then_outcome Sample.reducer
                Sample.never_throws Sample.meanwhile
                Sample.getMessages_ok Sample.apiNarrowOfNarrow
                Sample.FIRST_UNREAD_ANCHOR fetchArgs Sample.world0))
             Sample.response1 eq_refl eq_refl)).
  - apply (proj1 (proj1 (proj2 (proj2
             (fetchMessages_start_then_outcome Sample.reducer
                Sample.throws_on_messages Sample.meanwhile
                Sample.getMessages_ok Sample.apiNarrowOfNarrow
                Sample.FIRST_UNREAD_ANCHOR fetchArgs Sample.world0)))
             Sample.response1 (OtherError "unexpected message data")
             eq_refl eq_refl)).
  - apply (proj1 (proj1 (proj2 (proj2 (proj2
             (fetchMessages_start_then_outcome Sample.reducer
                Sample.never_throws Sample.meanwhile
                Sample.getMessages_500 Sample.apiNarrowOfNarrow
                Sample.FIRST_UNREAD_ANCHOR fetchArgs Sample.world0))))
             (ApiError 500 "INTERNAL") eq_refl)).
Defined.

(** C5, counterexample.  The request succeeds and the store throws
    on the messages: the thunk does not return them; the complete action is
    followed by the error action, and the error is raised. *)
Lemma fetchMessages_success_clause_counterexample :
  let fetchArgs := {| fa_narrow := Sample.stream_narrow; fa_anchor := 1000;
                      fa_numBefore := 50 # 1; fa_numAfter := 0 |} in
  let params := {| gm_narrow := Sample.stream_narrow;
                   gm_anchor := 1000;
                   gm_numBefore := 50 # 1;
                   gm_numAfter := 0;
                   gm_useFirstUnread := Some false |} in
  let settled :=
    run_async Sample.meanwhile
      (fetchMessages Sample.reducer Sample.throws_on_messages
         Sample.getMessages_ok Sample.apiNarrowOfNarrow
         Sample.FIRST_UNREAD_ANCHOR fetchArgs)
      Sample.world0 in
  getMessages_calls (events_since Sample.world0 (snd settled))
  = [(Sample.auth, params)]
  /\ Sample.getMessages_ok Sample.auth params = Ok Sample.response1
  /\ fst settled <> Ok (messages Sample.response1)
  /\ fst settled = Throw (OtherError "unexpected message data")
  /\ signals (events_since Sample.world0 (snd settled))
     = [MESSAGE_FETCH_START Sample.stream_narrow (50 # 1) 0;
        MESSAGE_FETCH_COMPLETE [Sample.message1] Sample.stream_narrow 1000
          (50 # 1) 0 (Some false) (Some true) 7;
        MESSAGE_FETCH_ERROR Sample.stream_narrow
          (OtherError "unexpected message data")].
Proof.
  cbn zeta. split; [reflexivity|]. split; [reflexivity|].
  split; [discriminate|]. split; reflexivity.
Qed.

(** [fetchNewer] while a newer fetch is in flight, and twice in a row. *)
Lemma fetchNewer_in_flight_is_noop_witness :
  fetchNewer Sample.reducer Sample.never_throws Sample.getMessages_ok Sample.apiNarrowOfNarrow
    Sample.messagesPerRequest Sample.FIRST_UNREAD_ANCHOR Sample.stream_narrow
    Sample.world_fetchingNewer
  = (None, Sample.world_fetchingNewer)
  /\ f_newer (getFetchingForNarrow (store Sample.world0) Sample.stream_narrow)
     = false
  /\ List.length
       (getMessages_calls
          (events_since Sample.world0
             (snd (fetchNewer Sample.reducer Sample.never_throws Sample.getMessages_ok
                     Sample.apiNarrowOfNarrow Sample.messagesPerRequest
                     Sample.FIRST_UNREAD_ANCHOR Sample.stream_narrow
                     Sample.world0))))
     = 1%nat.
Proof.
  split; [|split].
  - apply (proj1 (proj1
             (fetchNewer_in_flight_is_noop Sample.reducer Sample.never_throws Sample.meanwhile
                Sample.getMessages_ok Sample.apiNarrowOfNarrow
                Sample.messagesPerRequest Sample.FIRST_UNREAD_ANCHOR
                Sample.stream_narrow Sample.world_fetchingNewer) eq_refl)).
  - apply (proj1 (proj2
             (fetchNewer_in_flight_is_noop Sample.reducer Sample.never_throws Sample.meanwhile
                Sample.getMessages_ok Sample.apiNarrowOfNarrow
                Sample.messagesPerRequest Sample.FIRST_UNREAD_ANCHOR
                Sample.stream_narrow Sample.world0))
             ltac:(vm_compute; discriminate)).
  - apply (proj1 (proj2 (proj2
             (fetchNewer_in_flight_is_noop Sample.reducer Sample.never_throws Sample.meanwhile
                Sample.getMessages_ok Sample.apiNarrowOfNarrow
                Sample.messagesPerRequest Sample.FIRST_UNREAD_ANCHOR
                Sample.stream_narrow Sample.world0))
             ltac:(unfold newer_guard; cbn; repeat split; discriminate)
             ltac:(intros s; reflexivity))).
Defined.

(** C7, counterexample.  A newer-direction fetch of the stream
    narrow is started and its promise left outstanding; a centering fetch
    of the same narrow then runs to its end, and in the sample store its
    complete action clears the flag; a second [fetchNewer] then sends the
    same newer-direction request again.  The first request has not
    settled: no action of its completion is among those dispatched. *)
Lemma fetchNewer_second_request_counterexample :
  let trigger :=
    fetchNewer Sample.reducer Sample.never_throws Sample.getMessages_ok
      Sample.apiNarrowOfNarrow Sample.messagesPerRequest
      Sample.FIRST_UNREAD_ANCHOR Sample.stream_narrow in
  let centering :=
    fetchMessagesInNarrow Sample.reducer Sample.never_throws
      Sample.getMessages_ok Sample.apiNarrowOfNarrow
      Sample.messagesPerRequest Sample.FIRST_UNREAD_ANCHOR
      Sample.stream_narrow None in
  let newer_request :=
    (Sample.auth,
     {| gm_narrow := Sample.stream_narrow;
        gm_anchor := 2000;
        gm_numBefore := 0;
        gm_numAfter := 50 # 1;
        gm_useFirstUnread := Some false |}) in
  let w1 := snd (trigger Sample.world0) in
  let w2 := snd (run_async Sample.meanwhile centering w1) in
  let w3 := snd (trigger w2) in
  fst (trigger Sample.world0) <> None
  /\ f_newer (getFetchingForNarrow (store w1) Sample.stream_narrow) = true
  /\ getMessages_calls (events_since Sample.world0 w1) = [newer_request]
  /\ f_newer (getFetchingForNarrow (store w2) Sample.stream_narrow) = false
  /\ getMessages_calls (events_since w2 w3) = [newer_request]
  /\ signals (events_since Sample.world0 w3)
     = [MESSAGE_FETCH_START Sample.stream_narrow 0 (50 # 1);
        MESSAGE_FETCH_START Sample.stream_narrow (50 # 2) (50 # 2);
        MESSAGE_FETCH_COMPLETE [Sample.message1] Sample.stream_narrow 0
          (50 # 2) (50 # 2) (Some false) (Some true) 7;
        MESSAGE_FETCH_START Sample.stream_narrow 0 (50 # 1)].
Proof.
  cbn zeta. split; [discriminate|]. repeat split; reflexivity.
Qed.

(** [fetchMessagesInNarrow] on a narrow that is caught up, and on one that
    is not, with 50 messages per request and the default anchor. *)
Lemma fetchMessagesInNarrow_centering_witness :
  fst (run_async Sample.meanwhile
         (fetchMessagesInNarrow Sample.reducer Sample.never_throws Sample.getMessages_ok
            Sample.apiNarrowOfNarrow Sample.messagesPerRequest
            Sample.FIRST_UNREAD_ANCHOR Sample.stream_narrow None)
         Sample.world_caughtUp)
  = Ok None
  /\ getMessages_calls
       (events_since Sample.world0
          (snd (run_async Sample.meanwhile
                  (fetchMessagesInNarrow Sample.reducer Sample.never_throws Sample.getMessages_ok
                     Sample.apiNarrowOfNarrow Sample.messagesPerRequest
                     Sample.FIRST_UNREAD_ANCHOR Sample.stream_narrow None)
                  Sample.world0)))
     = [(Sample.auth,
         {| gm_narrow := Sample.stream_narrow;
            gm_anchor := Sample.FIRST_UNREAD_ANCHOR;
            gm_numBefore := 50 # 2;
            gm_numAfter := 50 # 2;
            gm_useFirstUnread := Some true |})].
Proof.
  split.
  - apply (proj1 (proj1
             (fetchMessagesInNarrow_centering Sample.reducer Sample.never_throws Sample.meanwhile
                Sample.getMessages_ok Sample.apiNarrowOfNarrow
                Sample.messagesPerRequest Sample.FIRST_UNREAD_ANCHOR
                Sample.stream_narrow None Sample.world_caughtUp)
             eq_refl eq_refl)).
  - apply (proj1 (proj2
             (fetchMessagesInNarrow_centering Sample.reducer Sample.never_throws Sample.meanwhile
                Sample.getMessages_ok Sample.apiNarrowOfNarrow
                Sample.messagesPerRequest Sample.FIRST_UNREAD_ANCHOR
                Sample.stream_narrow None Sample.world0)
             ltac:(cbn; intros [H _]; discriminate H))).
Defined.

(** [fetchPrivateMessages] against a server that answers, and one that
    fails. *)
Lemma fetchPrivateMessages_only_signals_completion_witness :
  signals
    (events_since Sample.world0
       (snd (run_async Sample.meanwhile
               (fetchPrivateMessages Sample.reducer Sample.getMessages_ok
                  Sample.apiNarrowOfNarrow Sample.LAST_MESSAGE_ANCHOR
                  Sample.ALL_PRIVATE_NARROW)
               Sample.world0)))
  = [MESSAGE_FETCH_COMPLETE [Sample.message1] Sample.ALL_PRIVATE_NARROW
       Sample.LAST_MESSAGE_ANCHOR (100 # 1) 0 (Some false) (Some true) 7]
  /\ signals
       (events_since Sample.world0
          (snd (run_async Sample.meanwhile
                  (fetchPrivateMessages Sample.reducer Sample.getMessages_500
                     Sample.apiNarrowOfNarrow Sample.LAST_MESSAGE_ANCHOR
                     Sample.ALL_PRIVATE_NARROW)
                  Sample.world0)))
     = [].
Proof.
  split.
  - apply (proj2 (proj1 (proj2
             (fetchPrivateMessages_only_signals_completion Sample.reducer Sample.never_throws
                Sample.meanwhile Sample.getMessages_ok Sample.apiNarrowOfNarrow
                Sample.FIRST_UNREAD_ANCHOR Sample.LAST_MESSAGE_ANCHOR
                Sample.ALL_PRIVATE_NARROW Sample.world0))
             Sample.response1 eq_refl)).
  - apply (proj1 (proj2 (proj2 (proj2
             (fetchPrivateMessages_only_signals_completion Sample.reducer Sample.never_throws
                Sample.meanwhile Sample.getMessages_500 Sample.apiNarrowOfNarrow
                Sample.FIRST_UNREAD_ANCHOR Sample.LAST_MESSAGE_ANCHOR
                Sample.ALL_PRIVATE_NARROW Sample.world0))
             (ApiError 500 "INTERNAL") eq_refl))).
Defined.

(** [tryFetch] around a registration that fails twice with a network error
    and then succeeds: two waits, three calls; and around a server settings
    request refused with a 401: no wait, one call. *)
Lemma tryFetch_retries_until_settled_witness :
  fst (tryFetch Sample.meanwhile 5
         (registerForEvents_func Sample.register_third_time
            Sample.serverDataOnStartup Sample.auth)
         Sample.world0)
  = {| backoffMachine := {| waits := 2 |}; calls := 3;
       stage := Settled (Ok Sample.initData1) |}
  /\ fst (tryFetch Sample.meanwhile 1
            (getServerSettings_func Sample.settings_401 Sample.auth)
            Sample.world0)
     = {| backoffMachine := {| waits := 0 |}; calls := 1;
          stage := Settled (Throw (ApiError 401 "UNAUTHORIZED")) |}.
Proof.
  split.
  - apply (proj1 (proj2
             (@tryFetch_retries_until_settled Sample.meanwhile _
                (registerForEvents_func Sample.register_third_time
                   Sample.serverDataOnStartup Sample.auth)
                Sample.world0)) 2%nat Sample.initData1 5%nat).
    + intros i Hi. exists (NetworkError "timeout"). split; [reflexivity|].
      destruct i as [|[|i]]; [intros w w'; reflexivity ..|lia].
    + intros w w'. reflexivity.
    + lia.
  - apply (proj1
             (@tryFetch_retries_until_settled Sample.meanwhile _
                (getServerSettings_func Sample.settings_401 Sample.auth)
                Sample.world0) 0%nat (ApiError 401 "UNAUTHORIZED") 1%nat).
    + intros i Hi. lia.
    + intros w w'. reflexivity.
    + reflexivity.
    + lia.
Defined.

(** The registration succeeds and the server settings request is refused
    with a 401: the run dispatches the start and the logout, nothing else. *)
Lemma doInitialFetch_logs_out_on_client_error_witness :
  let finished :=
    doInitialFetch Sample.reducer Sample.meanwhile Sample.getMessages_ok
      Sample.register_ok Sample.settings_401 Sample.apiNarrowOfNarrow
      Sample.serverDataOnStartup Sample.LAST_MESSAGE_ANCHOR
      Sample.ALL_PRIVATE_NARROW Sample.isAtLeast
      Sample.MIN_RECENTPMS_SERVER_VERSION [First; Second] Sample.world0 in
  fst finished = Returned None
  /\ signals (events_since Sample.world0 (snd finished))
     = [INITIAL_FETCH_START; LOGOUT].
Proof.
  intros finished.
  pose proof
    (@doInitialFetch_logs_out_on_client_error Sample.reducer Sample.meanwhile
       Sample.getMessages_ok Sample.register_ok Sample.settings_401
       Sample.apiNarrowOfNarrow Sample.serverDataOnStartup
       Sample.LAST_MESSAGE_ANCHOR Sample.ALL_PRIVATE_NARROW Sample.isAtLeast
       Sample.MIN_RECENTPMS_SERVER_VERSION [First; Second] Sample.world0
       (ApiError 401 "UNAUTHORIZED") (or_intror eq_refl)) as H.
  split; [exact (proj1 (proj2 H))|exact (proj1 (proj2 (proj2 H)))].
Defined.

(** Both startup requests succeed.  A server at version 3.1 gets no
    messages request; the run of a server at 2.0.4 has the completion of
    the initial fetch among its actions as well. *)
Lemma doInitialFetch_legacy_fetch_by_version_witness :
  let events (settings : nat -> string -> Res ApiResponseServerSettings) :=
    events_since Sample.world0
      (snd (run_doInitialFetch Sample.reducer Sample.meanwhile
              Sample.getMessages_ok Sample.register_ok settings
              Sample.apiNarrowOfNarrow Sample.serverDataOnStartup
              Sample.LAST_MESSAGE_ANCHOR Sample.ALL_PRIVATE_NARROW
              Sample.isAtLeast Sample.MIN_RECENTPMS_SERVER_VERSION
              [First; Second] Sample.world0)) in
  (getMessages_calls (events Sample.settings_new) = []
   /\ In INITIAL_FETCH_COMPLETE (signals (events Sample.settings_new)))
  /\ exists (auth' : Auth) (users' : UsersById) (before after : list Event),
       let params :=
         {| gm_narrow := Sample.apiNarrowOfNarrow Sample.ALL_PRIVATE_NARROW users';
            gm_anchor := Sample.LAST_MESSAGE_ANCHOR;
            gm_numBefore := 100 # 1;
            gm_numAfter := 0;
            gm_useFirstUnread := None |} in
       events Sample.settings_old
       = before ++ [Dispatched initialFetchComplete] ++
         [Dispatched (START_EVENT_POLLING (queue_id Sample.initData1)
                        (last_event_id Sample.initData1))] ++
         [GetMessagesCall auth' params] ++ after
       /\ getMessages_calls before = []
       /\ getMessages_calls after = []
       /\ getMessages_calls (events Sample.settings_old) = [(auth', params)].
Proof.
  intros events. split.
  - apply (proj2
             (@doInitialFetch_legacy_fetch_by_version Sample.reducer
                Sample.meanwhile Sample.getMessages_ok Sample.register_ok
                Sample.settings_new Sample.apiNarrowOfNarrow
                Sample.serverDataOnStartup Sample.LAST_MESSAGE_ANCHOR
                Sample.ALL_PRIVATE_NARROW Sample.isAtLeast
                Sample.MIN_RECENTPMS_SERVER_VERSION [First; Second]
                Sample.world0 Sample.initData1 {| zulip_version := "3.1" |}
                eq_refl)
             eq_refl).
  - apply (proj1
             (@doInitialFetch_legacy_fetch_by_version Sample.reducer
                Sample.meanwhile Sample.getMessages_ok Sample.register_ok
                Sample.settings_old Sample.apiNarrowOfNarrow
                Sample.serverDataOnStartup Sample.LAST_MESSAGE_ANCHOR
                Sample.ALL_PRIVATE_NARROW Sample.isAtLeast
                Sample.MIN_RECENTPMS_SERVER_VERSION [First; Second]
                Sample.world0 Sample.initData1 {| zulip_version := "2.0.4" |}
                eq_refl)
             eq_refl).
Defined.

(** A messages request that fails with a 500: [fetchMessages] rethrows it
    and dispatches the error; in a run of [doInitialFetch] against an old
    server it rejects the promise of [fetchPrivateMessages]. *)
Lemma failed_request_is_retried_rethrown_or_signalled_witness :
  let fetchArgs := {| fa_narrow := Sample.stream_narrow; fa_anchor := 1000;
                      fa_numBefore := 50 # 1; fa_numAfter := 0 |} in
  let settled :=
    run_async Sample.meanwhile
      (fetchMessages Sample.reducer Sample.never_throws Sample.getMessages_500
         Sample.apiNarrowOfNarrow Sample.FIRST_UNREAD_ANCHOR fetchArgs)
      Sample.world0 in
  (fst settled = Throw (ApiError 500 "INTERNAL")
   /\ In (messageFetchError Sample.stream_narrow (ApiError 500 "INTERNAL"))
         (signals (events_since Sample.world0 (snd settled))))
  /\ fst (run_doInitialFetch Sample.reducer Sample.meanwhile
            Sample.getMessages_500 Sample.register_ok Sample.settings_old
            Sample.apiNarrowOfNarrow Sample.serverDataOnStartup
            Sample.LAST_MESSAGE_ANCHOR Sample.ALL_PRIVATE_NARROW
            Sample.isAtLeast Sample.MIN_RECENTPMS_SERVER_VERSION
            [First; Second] Sample.world0)
     = Some (Some (Throw (ApiError 500 "INTERNAL"))).
Proof.
  intros fetchArgs settled.
  pose proof
    (failed_request_is_retried_rethrown_or_signalled Sample.reducer Sample.never_throws Sample.meanwhile
       Sample.getMessages_500 Sample.register_ok Sample.settings_old
       Sample.apiNarrowOfNarrow Sample.messagesPerRequest
       Sample.serverDataOnStartup Sample.FIRST_UNREAD_ANCHOR
       Sample.LAST_MESSAGE_ANCHOR Sample.ALL_PRIVATE_NARROW Sample.isAtLeast
       Sample.MIN_RECENTPMS_SERVER_VERSION) as H.
  split.
  - apply (proj1 H fetchArgs Sample.world0 Sample.auth
             {| gm_narrow := Sample.stream_narrow;
                gm_anchor := 1000;
                gm_numBefore := 50 # 1;
                gm_numAfter := 0;
                gm_useFirstUnread := Some false |}).
    + vm_compute. left. reflexivity.
    + reflexivity.
  - apply (proj2 (proj2 (proj2 (proj2 (proj2 (proj2 (proj2 H))))))
             [First; Second] Sample.world0 Sample.auth
             {| gm_narrow := Sample.ALL_PRIVATE_NARROW;
                gm_anchor := Sample.LAST_MESSAGE_ANCHOR;
                gm_numBefore := 100 # 1;
                gm_numAfter := 0;
                gm_useFirstUnread := None |}).
    + vm_compute. left. reflexivity.
    + reflexivity.
Defined.

(** C8, counterexample.  An old server fails the messages request
    of [fetchPrivateMessages] with a 500.  [doInitialFetch] sends the
    request once, does not await its promise and returns; the run makes no
    other messages request and waits for no retry, and its actions are
    those of a successful initial fetch: no error action and no logout. *)
Lemma doInitialFetch_drops_legacy_failure_counterexample :
  let params :=
    {| gm_narrow := Sample.ALL_PRIVATE_NARROW;
       gm_anchor := Sample.LAST_MESSAGE_ANCHOR;
       gm_numBefore := 100 # 1;
       gm_numAfter := 0;
       gm_useFirstUnread := None |} in
  let returned :=
    fst (doInitialFetch Sample.reducer Sample.meanwhile
           Sample.getMessages_500 Sample.register_ok Sample.settings_old
           Sample.apiNarrowOfNarrow Sample.serverDataOnStartup
           Sample.LAST_MESSAGE_ANCHOR Sample.ALL_PRIVATE_NARROW
           Sample.isAtLeast Sample.MIN_RECENTPMS_SERVER_VERSION
           [First; Second] Sample.world0) in
  let finished :=
    run_doInitialFetch Sample.reducer Sample.meanwhile
      Sample.getMessages_500 Sample.register_ok Sample.settings_old
      Sample.apiNarrowOfNarrow Sample.serverDataOnStartup
      Sample.LAST_MESSAGE_ANCHOR Sample.ALL_PRIVATE_NARROW
      Sample.isAtLeast Sample.MIN_RECENTPMS_SERVER_VERSION
      [First; Second] Sample.world0 in
  let evs := events_since Sample.world0 (snd finished) in
  getMessages_calls evs = [(Sample.auth, params)]
  /\ Sample.getMessages_500 Sample.auth params = Throw (ApiError 500 "INTERNAL")
  /\ (exists floating : Promise unit, returned = Returned (Some floating))
  /\ backoff_waits evs = 0%nat
  /\ signals evs
     = [INITIAL_FETCH_START;
        REALM_INIT Sample.initData1 {| raw_version := "2.0.4" |};
        INITIAL_FETCH_COMPLETE;
        START_EVENT_POLLING "1517:0" (-1);
        SEND_OUTBOX;
        INIT_NOTIFICATIONS]
  /\ ~ In LOGOUT (signals evs)
  /\ ~ In (MESSAGE_FETCH_ERROR Sample.ALL_PRIVATE_NARROW
             (ApiError 500 "INTERNAL")) (signals evs).
Proof.
  cbn zeta. split; [reflexivity|]. split; [reflexivity|].
  split; [eexists; reflexivity|]. split; [reflexivity|].
  split; [reflexivity|].
  split; vm_compute; intros [H|[H|[H|[H|[H|[H|[]]]]]]]; discriminate H.
Qed.

(** The trace of the retry loop around a registration that succeeds at the
    third call: a wait after each of the two failures. *)
Example tryFetch_third_time_trace :
  trace (snd (tryFetch Sample.meanwhile 5
                (registerForEvents_func Sample.register_third_time
                   Sample.serverDataOnStartup Sample.auth)
                Sample.world0))
  = [RegisterForEventsCall Sample.auth (registerParams Sample.serverDataOnStartup);
     BackoffWait;
     RegisterForEventsCall Sample.auth (registerParams Sample.serverDataOnStartup);
     BackoffWait;
     RegisterForEventsCall Sample.auth (registerParams Sample.serverDataOnStartup)].
Proof. reflexivity. Qed.

(** The trace of an initial fetch in which the registration is still being
    retried when the server settings request is refused: the logout comes
    at once, and the registration loop goes on behind it. *)
Example doInitialFetch_refused_trace :
  trace (snd (doInitialFetch Sample.reducer Sample.meanwhile
                Sample.getMessages_ok Sample.register_third_time
                Sample.settings_401 Sample.apiNarrowOfNarrow
                Sample.serverDataOnStartup Sample.LAST_MESSAGE_ANCHOR
                Sample.ALL_PRIVATE_NARROW Sample.isAtLeast
                Sample.MIN_RECENTPMS_SERVER_VERSION
                [First; Second; First; First; First] Sample.world0))
  = [Dispatched INITIAL_FETCH_START;
     RegisterForEventsCall Sample.auth (registerParams Sample.serverDataOnStartup);
     GetServerSettingsCall (realm Sample.auth);
     BackoffWait;
     Dispatched LOGOUT;
     RegisterForEventsCall Sample.auth (registerParams Sample.serverDataOnStartup);
     BackoffWait;
     RegisterForEventsCall Sample.auth (registerParams Sample.serverDataOnStartup)].
Proof. reflexivity. Qed.

(** ** The further facts at work on the sample store and server *)


(** The registration that succeeds at the third call, followed for three
    awaits: two requests, each followed by a wait. *)
Lemma tryFetch_alternates_calls_and_waits_witness :
  let call := RegisterForEventsCall Sample.auth
                (registerParams Sample.serverDataOnStartup) in
  events_since Sample.world0
    (snd (tryFetch Sample.meanwhile 3
            (registerForEvents_func Sample.register_third_time
               Sample.serverDataOnStartup Sample.auth)
            Sample.world0))
  = [call; BackoffWait; call; BackoffWait].
Proof.
  intros call.
  exact (proj1
           (@tryFetch_alternates_calls_and_waits Sample.meanwhile _ call
              (registerForEvents_func Sample.register_third_time
                 Sample.serverDataOnStartup Sample.auth)
              3%nat Sample.world0
              (@registerForEvents_func_calls_only Sample.register_third_time
                 Sample.serverDataOnStartup Sample.auth))).
Defined.

(** A run in which the server settings request is refused while the
    registration is retried: the realm asked is the one of the sample
    auth. *)
Lemma doInitialFetch_requests_use_the_auth_read_first_witness :
  realm Sample.auth
  = realm (getAuth (Sample.reducer (store Sample.world0) initialFetchStart)).
Proof.
  apply (proj2
           (@doInitialFetch_requests_use_the_auth_read_first Sample.reducer
              Sample.meanwhile Sample.getMessages_ok Sample.register_third_time
              Sample.settings_401 Sample.apiNarrowOfNarrow
              Sample.serverDataOnStartup Sample.LAST_MESSAGE_ANCHOR
              Sample.ALL_PRIVATE_NARROW Sample.isAtLeast
              Sample.MIN_RECENTPMS_SERVER_VERSION
              [First; Second; First; First] Sample.world0)
           (realm Sample.auth)).
  vm_compute. right. right. left. reflexivity.
Defined.

(** Both requests succeed at once against a server at version 3.1. *)
Lemma doInitialFetch_success_order_witness :
  exists tail : list Action,
    signals
      (events_since Sample.world0
         (snd (run_doInitialFetch Sample.reducer Sample.meanwhile
                 Sample.getMessages_ok Sample.register_ok Sample.settings_new
                 Sample.apiNarrowOfNarrow Sample.serverDataOnStartup
                 Sample.LAST_MESSAGE_ANCHOR Sample.ALL_PRIVATE_NARROW
                 Sample.isAtLeast Sample.MIN_RECENTPMS_SERVER_VERSION
                 [First; Second] Sample.world0)))
    = [initialFetchStart;
       REALM_INIT Sample.initData1 {| raw_version := "3.1" |};
       initialFetchComplete;
       START_EVENT_POLLING (queue_id Sample.initData1)
         (last_event_id Sample.initData1);
       SEND_OUTBOX;
       INIT_NOTIFICATIONS] ++ tail
    /\ (List.length tail <= 1)%nat
    /\ (Sample.isAtLeast {| raw_version := "3.1" |}
          Sample.MIN_RECENTPMS_SERVER_VERSION = true -> tail = []).
Proof.
  exact (@doInitialFetch_success_order Sample.reducer Sample.meanwhile
           Sample.getMessages_ok Sample.register_ok Sample.settings_new
           Sample.apiNarrowOfNarrow Sample.serverDataOnStartup
           Sample.LAST_MESSAGE_ANCHOR Sample.ALL_PRIVATE_NARROW
           Sample.isAtLeast Sample.MIN_RECENTPMS_SERVER_VERSION
           [First; Second] Sample.world0 Sample.initData1
           {| zulip_version := "3.1" |} eq_refl).
Defined.

(** The server settings have arrived and the registration is still being
    retried. *)
Lemma doInitialFetch_applies_nothing_while_pending_witness :
  let finished :=
    doInitialFetch Sample.reducer Sample.meanwhile Sample.getMessages_ok
      Sample.register_third_time Sample.settings_old Sample.apiNarrowOfNarrow
      Sample.serverDataOnStartup Sample.LAST_MESSAGE_ANCHOR
      Sample.ALL_PRIVATE_NARROW Sample.isAtLeast
      Sample.MIN_RECENTPMS_SERVER_VERSION [Second; First; First] Sample.world0 in
  fst finished = Suspended
  /\ signals (events_since Sample.world0 (snd finished)) = [initialFetchStart].
Proof.
  intros finished.
  pose proof
    (@doInitialFetch_applies_nothing_while_pending Sample.reducer
       Sample.meanwhile Sample.getMessages_ok Sample.register_third_time
       Sample.settings_old Sample.apiNarrowOfNarrow Sample.serverDataOnStartup
       Sample.LAST_MESSAGE_ANCHOR Sample.ALL_PRIVATE_NARROW Sample.isAtLeast
       Sample.MIN_RECENTPMS_SERVER_VERSION [Second; First; First] Sample.world0
       eq_refl) as H.
  split; [exact (proj1 H)|exact (proj1 (proj2 H))].
Defined.

(** The registration succeeds at its third call, the server settings at
    once; the schedule gives the first loop five turns and the second
    one. *)
Lemma doInitialFetch_completes_in_every_interleaving_witness :
  In initialFetchComplete
    (signals
       (events_since Sample.world0
          (snd (run_doInitialFetch Sample.reducer Sample.meanwhile
                  Sample.getMessages_ok Sample.register_third_time
                  Sample.settings_old Sample.apiNarrowOfNarrow
                  Sample.serverDataOnStartup Sample.LAST_MESSAGE_ANCHOR
                  Sample.ALL_PRIVATE_NARROW Sample.isAtLeast
                  Sample.MIN_RECENTPMS_SERVER_VERSION
                  [First; First; Second; First; First; First]
                  Sample.world0)))).
Proof.
  apply (@doInitialFetch_completes_in_every_interleaving Sample.reducer
           Sample.meanwhile Sample.getMessages_ok Sample.register_third_time
           Sample.settings_old Sample.apiNarrowOfNarrow
           Sample.serverDataOnStartup Sample.LAST_MESSAGE_ANCHOR
           Sample.ALL_PRIVATE_NARROW Sample.isAtLeast
           Sample.MIN_RECENTPMS_SERVER_VERSION
           [First; First; Second; First; First; First] Sample.world0
           2%nat 0%nat Sample.initData1 {| zulip_version := "2.0.4" |}).
  - split; [|reflexivity].
    intros i Hi. exists (NetworkError "timeout").
    destruct i as [|[|i]]; [split; reflexivity ..|lia].
  - split; [|reflexivity]. intros i Hi. lia.
  - vm_compute. lia.
  - vm_compute. lia.
Defined.

(** The server settings request is refused at once; the schedule gives the
    second loop one turn, after two of the first. *)
Lemma doInitialFetch_logs_out_in_every_interleaving_witness :
  signals
    (events_since Sample.world0
       (snd (doInitialFetch Sample.reducer Sample.meanwhile
               Sample.getMessages_ok Sample.register_third_time
               Sample.settings_401 Sample.apiNarrowOfNarrow
               Sample.serverDataOnStartup Sample.LAST_MESSAGE_ANCHOR
               Sample.ALL_PRIVATE_NARROW Sample.isAtLeast
               Sample.MIN_RECENTPMS_SERVER_VERSION
               [First; First; Second] Sample.world0)))
  = [initialFetchStart; LOGOUT].
Proof.
  apply (@doInitialFetch_logs_out_in_every_interleaving Sample.reducer
           Sample.meanwhile Sample.getMessages_ok Sample.register_third_time
           Sample.settings_401 Sample.apiNarrowOfNarrow
           Sample.serverDataOnStartup Sample.LAST_MESSAGE_ANCHOR
           Sample.ALL_PRIVATE_NARROW Sample.isAtLeast
           Sample.MIN_RECENTPMS_SERVER_VERSION
           [First; First; Second] Sample.world0 0%nat
           (ApiError 401 "UNAUTHORIZED")).
  left. split.
  - split; [intros i Hi; lia|]. split; reflexivity.
  - vm_compute. lia.
Defined.

(** An upload that succeeds. *)
Lemma uploadFile_outbox_iff_uploaded_witness :
  uploadFile
    (fun _ _ _ => Ok {| response_uri := "/user_uploads/1/ab/cat.png" |})
    Sample.stream_narrow "file:///tmp/cat.png" "cat.png" Sample.state0
  = (Ok tt,
     [UploadFileCall Sample.auth "file:///tmp/cat.png" "cat.png";
      AddToOutbox Sample.stream_narrow
        "[cat.png](/user_uploads/1/ab/cat.png)"]).
Proof.
  exact (proj1 (proj2 (proj2
           (@uploadFile_outbox_iff_uploaded
              (fun _ _ _ => Ok {| response_uri := "/user_uploads/1/ab/cat.png" |})
              Sample.stream_narrow "file:///tmp/cat.png" "cat.png"
              Sample.state0)))
           {| response_uri := "/user_uploads/1/ab/cat.png" |} eq_refl).
Defined.

(** Two names without a bracket and one message. *)
Lemma messageToSend_unambiguous_without_bracket_witness :
  "cat.png"%string = "cat.png"%string
  /\ "/user_uploads/1/ab/cat.png"%string = "/user_uploads/1/ab/cat.png"%string.
Proof.
  exact (proj1 messageToSend_unambiguous_without_bracket
           "cat.png"%string "/user_uploads/1/ab/cat.png"%string
           "cat.png"%string "/user_uploads/1/ab/cat.png"%string
           eq_refl eq_refl eq_refl).
Defined.

(** [fetchMessagesInNarrow] on the sample narrow, with the default anchor,
    with a store that takes the messages and with one that throws on
    them. *)
Lemma fetchMessagesInNarrow_returns_fetched_messages_witness :
  fst (run_async Sample.meanwhile
         (fetchMessagesInNarrow Sample.reducer Sample.never_throws
            Sample.getMessages_ok Sample.apiNarrowOfNarrow
            Sample.messagesPerRequest Sample.FIRST_UNREAD_ANCHOR
            Sample.stream_narrow None)
         Sample.world0)
  = Ok (Some [Sample.message1])
  /\ fst (run_async Sample.meanwhile
            (fetchMessagesInNarrow Sample.reducer Sample.throws_on_messages
               Sample.getMessages_ok Sample.apiNarrowOfNarrow
               Sample.messagesPerRequest Sample.FIRST_UNREAD_ANCHOR
               Sample.stream_narrow None)
            Sample.world0)
     = Throw (OtherError "unexpected message data").
Proof.
  split.
  - exact (proj1 (proj1 (proj2
             (@fetchMessagesInNarrow_returns_fetched_messages Sample.reducer
                Sample.never_throws Sample.meanwhile Sample.getMessages_ok
                Sample.apiNarrowOfNarrow Sample.messagesPerRequest
                Sample.FIRST_UNREAD_ANCHOR Sample.stream_narrow None
                Sample.world0 Sample.response1 eq_refl eq_refl))
             eq_refl)).
  - exact (proj1 (proj2 (proj2
             (@fetchMessagesInNarrow_returns_fetched_messages Sample.reducer
                Sample.throws_on_messages Sample.meanwhile
                Sample.getMessages_ok Sample.apiNarrowOfNarrow
                Sample.messagesPerRequest Sample.FIRST_UNREAD_ANCHOR
                Sample.stream_narrow None Sample.world0 Sample.response1
                eq_refl eq_refl))
             (OtherError "unexpected message data") eq_refl)).
Defined.
